(** * Dependency-ordered execution of repartition tasks (Citus)

    A shallow embedding of
      src/backend/distributed/executor/adaptive_executor_repartioning.c
      src/backend/distributed/executor/repartition_logic.c
    and the properties of the scheduler, the fetch-command synthesizer and
    the namespace provisioner/reclaimer that are stated about them.

    Modelling choices.
    - A [Task *] is an address [TaskPtr]; the tasks live in a [Heap].  Lists
      of tasks are lists of addresses, so that a task reached through
      [allTasks], through [mapOutputFetchTasks] and through another task's
      [dependedTaskList] is one and the same object.
    - [uint64] and [uint32] identifiers are [N]; the code only copies and
      compares them.
    - The completed-task hash table is a [gset] of keys together with
      PostgreSQL's [hash_search] for the two actions the code uses.
    - The remote executor, the command broadcast, the node list and the
      command templates are collaborators outside these files: they are the
      fields of [Collaborators], and every call to one of the two remote
      operations is recorded in a [Trace].
    - [ereport(ERROR)], a failed [Assert] and the dereference of the head of
      an empty list end the run: they are the [Failure]s of the monad [M]. *)

From stdpp Require Import base option list relations functions gmap sets
  strings pretty.

(** ** Data model *)

(** The enumeration is declared in a header outside these files; these are
    the enumerators the sources name. *)
Inductive TaskType :=
| TASK_TYPE_INVALID_FIRST
| SELECT_TASK
| MAP_TASK
| MERGE_TASK
| MAP_OUTPUT_FETCH_TASK
| MODIFY_TASK.

#[global] Instance TaskType_eq_dec : EqDecision TaskType.
Proof. solve_decision. Defined.

Definition TaskPtr := nat.

Record ShardPlacement := mkShardPlacement {
  nodeName : string;
  nodePort : N
}.

Record WorkerNode := mkWorkerNode {
  workerName : string;
  workerPort : N
}.

Record Task := mkTask {
  jobId : N;
  taskId : N;
  taskType : TaskType;
  dependedTaskList : list TaskPtr;
  queryString : string;
  taskPlacementList : list ShardPlacement;
  partitionId : N;
  upstreamTaskId : N
}.

(** Every [Task *] held in a list points to a task. *)
Definition Heap := TaskPtr -> Task.

Record TaskHashKey := mkTaskHashKey {
  key_jobId : N;
  key_taskId : N
}.

#[global] Instance TaskHashKey_eq_dec : EqDecision TaskHashKey.
Proof. solve_decision. Defined.

#[global] Instance TaskHashKey_countable : Countable TaskHashKey.
Proof.
  refine (inj_countable'
            (fun k => (key_jobId k, key_taskId k))
            (fun p => mkTaskHashKey (fst p) (snd p)) _).
  by intros [].
Defined.

(** [TaskHashCompare]: the match function of the table; [false] stands for
    the result 0, which the function returns on equal keys and on no
    others.  [TaskHash] only chooses the bucket of a key and is left out. *)
Definition TaskHashCompare (key1 key2 : TaskHashKey) : bool :=
  negb (key_jobId key1 =? key_jobId key2)%N
  || negb (key_taskId key1 =? key_taskId key2)%N.

(** The table of completed tasks.  Only the keys matter: the code never
    reads the entry that [hash_search] returns. *)
Abbreviation HTAB := (gset TaskHashKey).

Inductive HASHACTION := HASH_FIND | HASH_ENTER.

(** PostgreSQL's [hash_search]: [HASH_FIND] looks the key up, [HASH_ENTER]
    looks it up and creates the entry when it is missing; [found] tells
    whether the key was there before the call. *)
Definition hash_search (hashp : HTAB) (key : TaskHashKey) (action : HASHACTION)
  : HTAB * bool :=
  match action with
  | HASH_FIND => (hashp, bool_decide (key ∈ hashp))
  | HASH_ENTER => ({[ key ]} ∪ hashp, bool_decide (key ∈ hashp))
  end.

(** ** Remote operations, failures and the monad *)

Inductive Event :=
| EvTrackerCleanupJobDirectories
| EvSendCommandList (name : string) (port : N) (user : string)
                    (commandList : list string)
| EvExecuteTaskList (taskList : list TaskPtr).

Abbreviation Trace := (list Event).

Inductive Failure :=
| ModificationsDone      (* ereport(ERROR) of the pre-flight guard *)
| RemoteExecutionFailed  (* ereport(ERROR) inside ExecuteTaskList *)
| BroadcastFailed        (* ereport(ERROR) inside the command broadcast *)
| FailedAssertion        (* Assert() in an assert-enabled build *)
| NullDereference        (* lfirst of the head cell of NIL *)
| LoopBudget.            (* the model's bound on while(true) *)

Inductive Result (A : Type) :=
| Ok (a : A)
| Err (e : Failure).
Arguments Ok {A} a.
Arguments Err {A} e.

Definition M (A : Type) : Type := Trace -> Result A * Trace.

#[global] Instance M_ret : MRet M := fun A a tr => (Ok a, tr).

#[global] Instance M_bind : MBind M := fun A B k c tr =>
  match c tr with
  | (Ok a, tr') => k a tr'
  | (Err e, tr') => (Err e, tr')
  end.

Definition raise {A} (e : Failure) : M A := fun tr => (Err e, tr).

(** A computation that does not touch the remote side. *)
Definition lift {A} (r : Result A) : M A := fun tr => (r, tr).

(** The collaborators of the two files.  A remote call may succeed or end
    in an error depending on everything that happened before it; the node
    list is consulted afresh at every broadcast. *)
Record Collaborators := mkCollaborators {
  (* builds: is Assert() compiled in? *)
  USE_ASSERT_CHECKING : bool;
  (* command templates, applied to their arguments in positional order *)
  MAP_OUTPUT_FETCH_COMMAND : N -> N -> N -> N -> string -> N -> string;
  WORKER_CREATE_SCHEMA_QUERY : N -> string;
  WORKER_DELETE_JOBDIR_QUERY : N -> string;
  JOB_SCHEMA_CLEANUP : string;
  (* catalog and cluster membership *)
  CitusExtensionOwnerName : string;
  ActiveReadableNodeList : Trace -> list WorkerNode;
  (* expansion of the task tree *)
  TaskAndExecutionList : Heap -> list TaskPtr -> list TaskPtr;
  (* outcome of the remote calls *)
  sendSucceeds : Trace -> string -> N -> string -> list string -> bool;
  executeSucceeds : Trace -> list TaskPtr -> bool;
  (* the transaction's modification level is above XACT_MODIFICATION_NONE *)
  modificationsDone : bool
}.

(** [linitial]: the first element; on [NIL] the C macro dereferences a null
    cell. *)
Definition linitial {A} (l : list A) : Result A :=
  match l with
  | [] => Err NullDereference
  | x :: _ => Ok x
  end.

Definition lappend {A} (l : list A) (x : A) : list A := l ++ [x].

Definition list_length {A} (l : list A) : nat := length l.

#[global] Instance Result_ret : MRet Result := fun A a => Ok a.

#[global] Instance Result_bind : MBind Result := fun A B k r =>
  match r with
  | Ok a => k a
  | Err e => Err e
  end.

(** ** The collaborators as operations *)

Section Externals.

Variable env : Collaborators.

(** [Assert] is compiled in only with USE_ASSERT_CHECKING. *)
Definition Assert (condition : bool) : Result unit :=
  if USE_ASSERT_CHECKING env && negb condition then Err FailedAssertion
  else Ok tt.

(** The remote executor.  The call is recorded whether or not it succeeds;
    a failure is an [ereport(ERROR)], which ends the run.  The row
    modification level (ROW_MODIFY_NONE) and the pool size
    (MaxAdaptiveExecutorPoolSize) of the only call are left out. *)
Definition ExecuteTaskList (taskList : list TaskPtr) : M unit :=
  fun tr =>
    let tr' := tr ++ [EvExecuteTaskList taskList] in
    if executeSucceeds env tr taskList then (Ok tt, tr')
    else (Err RemoteExecutionFailed, tr').

(** The command broadcast to one worker, recorded and failing likewise. *)
Definition SendCommandListToWorkerInSingleTransaction
    (name : string) (port : N) (user : string) (commandList : list string)
  : M unit :=
  fun tr =>
    let tr' := tr ++ [EvSendCommandList name port user commandList] in
    if sendSucceeds env tr name port user commandList then (Ok tt, tr')
    else (Err BroadcastFailed, tr').

(** The cleanup that opens a run of adaptive_executor_repartioning.c; it
    uses neither of the two operations above. *)
Definition TrackerCleanupJobDirectories : M unit :=
  fun tr => (Ok tt, tr ++ [EvTrackerCleanupJobDirectories]).

(** Modelled from the spec: [EnsureNoModificationsHaveBeenDone] is defined
    in the transaction management code, outside these files.  Section 6 of
    the specification: the check confirms that no data-modifying statement
    has already executed earlier in the enclosing unit of work, and if one
    has, the run fails immediately. *)
Definition EnsureNoModificationsHaveBeenDone : M unit :=
  if modificationsDone env then raise ModificationsDone else mret tt.

End Externals.

(** ** adaptive_executor_repartioning.c *)

Module AdaptiveExecutorRepartitioning.
Section WithCollaborators.

Variable env : Collaborators.

(** *** The scheduler *)

Definition FillTaskKey (h : Heap) (task : TaskPtr) : TaskHashKey :=
  mkTaskHashKey (jobId (h task)) (taskId (h task)).

Fixpoint AddCompletedTasks (h : Heap) (curCompletedTasks : list TaskPtr)
    (completedTasks : HTAB) : HTAB :=
  match curCompletedTasks with
  | [] => completedTasks
  | task :: rest =>
      let '(completedTasks', _) :=
        hash_search completedTasks (FillTaskKey h task) HASH_ENTER in
      AddCompletedTasks h rest completedTasks'
  end.

Definition IsTaskAlreadyCompleted (h : Heap) (task : TaskPtr)
    (completedTasks : HTAB) : HTAB * bool :=
  hash_search completedTasks (FillTaskKey h task) HASH_ENTER.

Fixpoint IsAllDependencyCompleted_from (h : Heap) (cells : list TaskPtr)
    (completedTasks : HTAB) : bool :=
  match cells with
  | [] => true
  | task :: rest =>
      let '(_, found) :=
        hash_search completedTasks (FillTaskKey h task) HASH_FIND in
      if negb found then false
      else IsAllDependencyCompleted_from h rest completedTasks
  end.

Definition IsAllDependencyCompleted (h : Heap) (targetTask : TaskPtr)
    (completedTasks : HTAB) : bool :=
  IsAllDependencyCompleted_from h (dependedTaskList (h targetTask))
    completedTasks.

(** The [foreach] over [allTasks] inside the loop: the table and the batch
    built so far go in, the table and the batch after the scan come out.
    [&&] evaluates its right operand only when the left one is true. *)
Fixpoint scanTasks (h : Heap) (cells : list TaskPtr)
    (completedTasks : HTAB) (curTasks : list TaskPtr)
  : HTAB * list TaskPtr :=
  match cells with
  | [] => (completedTasks, curTasks)
  | task :: rest =>
      if IsAllDependencyCompleted h task completedTasks then
        let '(completedTasks', found) :=
          IsTaskAlreadyCompleted h task completedTasks in
        if negb found
        then scanTasks h rest completedTasks' (lappend curTasks task)
        else scanTasks h rest completedTasks' curTasks
      else scanTasks h rest completedTasks curTasks
  end.

(** [while (true)] with a bound on the number of iterations; the table at
    the exit is returned for the statements below (the C function returns
    nothing). *)
Fixpoint drain (budget : nat) (h : Heap) (allTasks : list TaskPtr)
    (completedTasks : HTAB) : M HTAB :=
  match budget with
  | O => raise LoopBudget
  | S budget' =>
      let '(completedTasks1, curTasks) :=
        scanTasks h allTasks completedTasks [] in
      if Nat.eqb (list_length curTasks) 0 then mret completedTasks1
      else
        ExecuteTaskList env curTasks;;
        drain budget' h allTasks (AddCompletedTasks h curTasks completedTasks1)
  end.

Definition ExecuteTasksInDependencyOrder_table (h : Heap)
    (allTasks topLevelTasks : list TaskPtr) : M HTAB :=
  let completedTasks := AddCompletedTasks h topLevelTasks ∅ in
  drain (S (length allTasks)) h allTasks completedTasks.

Definition ExecuteTasksInDependencyOrder (h : Heap)
    (allTasks topLevelTasks : list TaskPtr) : M unit :=
  ExecuteTasksInDependencyOrder_table h allTasks topLevelTasks;; mret tt.

(** *** Task groups and fetch commands *)

Fixpoint FillTaskGroups_from (h : Heap) (cells : list TaskPtr)
    (outputFetchTasks mergeTasks : list TaskPtr)
  : list TaskPtr * list TaskPtr :=
  match cells with
  | [] => (outputFetchTasks, mergeTasks)
  | task :: rest =>
      let outputFetchTasks' :=
        if decide (taskType (h task) = MAP_OUTPUT_FETCH_TASK)
        then lappend outputFetchTasks task else outputFetchTasks in
      let mergeTasks' :=
        if decide (taskType (h task) = MERGE_TASK)
        then lappend mergeTasks task else mergeTasks in
      FillTaskGroups_from h rest outputFetchTasks' mergeTasks'
  end.

Definition FillTaskGroups (h : Heap) (allTasks : list TaskPtr)
  : list TaskPtr * list TaskPtr :=
  FillTaskGroups_from h allTasks [] [].

(** The placement is read before the two assertions are evaluated. *)
Definition MapFetchTaskQueryString (h : Heap) (mapFetchTask mapTask : TaskPtr)
  : Result string :=
  let partitionFileId := partitionId (h mapFetchTask) in
  let mergeTaskId := upstreamTaskId (h mapFetchTask) in
  let mapTaskPlacementList := taskPlacementList (h mapTask) in
  mapTaskPlacement ← linitial mapTaskPlacementList;
  let mapTaskNodeName := nodeName mapTaskPlacement in
  let mapTaskNodePort := nodePort mapTaskPlacement in
  Assert env (bool_decide (taskType (h mapFetchTask) = MAP_OUTPUT_FETCH_TASK));;
  Assert env (bool_decide (taskType (h mapTask) = MAP_TASK));;
  mret (MAP_OUTPUT_FETCH_COMMAND env
          (jobId (h mapTask)) (taskId (h mapTask)) partitionFileId
          mergeTaskId mapTaskNodeName mapTaskNodePort).

(** [task->queryString = s] *)
Definition set_queryString (h : Heap) (task : TaskPtr) (s : string) : Heap :=
  <[ task := mkTask (jobId (h task)) (taskId (h task)) (taskType (h task))
               (dependedTaskList (h task)) s (taskPlacementList (h task))
               (partitionId (h task)) (upstreamTaskId (h task)) ]> h.

Fixpoint PutMapOutputFetchQueryStrings (h : Heap)
    (mapOutputFetchTasks : list TaskPtr) : Result Heap :=
  match mapOutputFetchTasks with
  | [] => mret h
  | task :: rest =>
      mapTask ← linitial (dependedTaskList (h task));
      mapFetchTaskQueryString ← MapFetchTaskQueryString h task mapTask;
      PutMapOutputFetchQueryStrings
        (set_queryString h task mapFetchTaskQueryString) rest
  end.

(** *** Schemas for the intermediate results *)

Fixpoint doesJobIDExist (jobIds : list N) (jobId : N) : bool :=
  match jobIds with
  | [] => false
  | curJobId :: rest =>
      if (curJobId =? jobId)%N then true else doesJobIDExist rest jobId
  end.

Fixpoint CreateJobIds_from (h : Heap) (cells : list TaskPtr) (jobIds : list N)
  : list N :=
  match cells with
  | [] => jobIds
  | task :: rest =>
      if negb (doesJobIDExist jobIds (jobId (h task)))
      then CreateJobIds_from h rest (lappend jobIds (jobId (h task)))
      else CreateJobIds_from h rest jobIds
  end.

Definition CreateJobIds (h : Heap) (mergeTasks : list TaskPtr) : list N :=
  CreateJobIds_from h mergeTasks [].

Fixpoint GenerateCreateSchemasCommand_from (cells : list N)
    (createSchemaCommand : string) : string :=
  match cells with
  | [] => createSchemaCommand
  | jobId :: rest =>
      GenerateCreateSchemasCommand_from rest
        (createSchemaCommand +:+ WORKER_CREATE_SCHEMA_QUERY env jobId)
  end.

Definition GenerateCreateSchemasCommand (jobIds : list N) : string :=
  GenerateCreateSchemasCommand_from jobIds EmptyString.

Fixpoint SendCommandToAllWorkers_from (extensionOwner : string)
    (commandList : list string) (cells : list WorkerNode) : M unit :=
  match cells with
  | [] => mret tt
  | workerNode :: rest =>
      SendCommandListToWorkerInSingleTransaction env
        (workerName workerNode) (workerPort workerNode) extensionOwner
        commandList;;
      SendCommandToAllWorkers_from extensionOwner commandList rest
  end.

Definition SendCommandToAllWorkers (commandList : list string) : M unit :=
  fun tr =>
    let extensionOwner := CitusExtensionOwnerName env in
    let workerNodeList := ActiveReadableNodeList env tr in
    SendCommandToAllWorkers_from extensionOwner commandList workerNodeList tr.

Definition CreateSchemasOnAllWorkers (createSchemasCommand : string) : M unit :=
  SendCommandToAllWorkers [createSchemasCommand].

Definition CreateTemporarySchemas (h : Heap) (mergeTasks : list TaskPtr)
  : M unit :=
  let jobIds := CreateJobIds h mergeTasks in
  let createSchemasCommand := GenerateCreateSchemasCommand jobIds in
  CreateSchemasOnAllWorkers createSchemasCommand.

Definition CleanUpSchemas : M unit :=
  SendCommandToAllWorkers [JOB_SCHEMA_CLEANUP env].

(** The heap after the run is returned next to the outcome: the query
    strings of the fetch tasks are written into the tasks themselves. *)
Definition ExecuteDependedTasks (h : Heap) (topLevelTasks : list TaskPtr)
  : M Heap :=
  TrackerCleanupJobDirectories;;
  let allTasks := TaskAndExecutionList env h topLevelTasks in
  let '(mapOutputFetchTasks, mergeTasks) := FillTaskGroups h allTasks in
  h' ← lift (PutMapOutputFetchQueryStrings h mapOutputFetchTasks);
  CreateTemporarySchemas h' mergeTasks;;
  ExecuteTasksInDependencyOrder h' allTasks topLevelTasks;;
  mret h'.

End WithCollaborators.
End AdaptiveExecutorRepartitioning.

(** ** repartition_logic.c *)

Module RepartitionLogic.
Section WithCollaborators.

Variable env : Collaborators.

Fixpoint FillTaskGroups_from (h : Heap) (cells : list TaskPtr)
    (mergeTasks : list TaskPtr) : list TaskPtr :=
  match cells with
  | [] => mergeTasks
  | task :: rest =>
      if decide (taskType (h task) = MERGE_TASK)
      then FillTaskGroups_from h rest (lappend mergeTasks task)
      else FillTaskGroups_from h rest mergeTasks
  end.

Definition FillTaskGroups (h : Heap) (allTasks : list TaskPtr)
  : list TaskPtr :=
  FillTaskGroups_from h allTasks [].

Fixpoint DoesJobIDExist (jobIds : list N) (jobId : N) : bool :=
  match jobIds with
  | [] => false
  | curJobId :: rest =>
      if (curJobId =? jobId)%N then true else DoesJobIDExist rest jobId
  end.

Fixpoint CreateJobIds_from (h : Heap) (cells : list TaskPtr) (jobIds : list N)
  : list N :=
  match cells with
  | [] => jobIds
  | task :: rest =>
      if negb (DoesJobIDExist jobIds (jobId (h task)))
      then CreateJobIds_from h rest (lappend jobIds (jobId (h task)))
      else CreateJobIds_from h rest jobIds
  end.

Definition CreateJobIds (h : Heap) (mergeTasks : list TaskPtr) : list N :=
  CreateJobIds_from h mergeTasks [].

(** [appendStringInfo(createSchemaCommand, templateCommand, jobId)] appends
    the template with the job id substituted. *)
Fixpoint GenerateCommand_from (templateCommand : N -> string)
    (cells : list N) (createSchemaCommand : string) : string :=
  match cells with
  | [] => createSchemaCommand
  | jobId :: rest =>
      GenerateCommand_from templateCommand rest
        (createSchemaCommand +:+ templateCommand jobId)
  end.

Definition GenerateCommand (jobIds : list N) (templateCommand : N -> string)
  : string :=
  GenerateCommand_from templateCommand jobIds EmptyString.

Definition GenerateCreateSchemasCommand (jobIds : list N) : string :=
  GenerateCommand jobIds (WORKER_CREATE_SCHEMA_QUERY env).

Definition GenerateDeleteJobsCommand (jobIds : list N) : string :=
  GenerateCommand jobIds (WORKER_DELETE_JOBDIR_QUERY env).

Fixpoint SendCommandToAllWorkers_from (extensionOwner : string)
    (commandList : list string) (cells : list WorkerNode) : M unit :=
  match cells with
  | [] => mret tt
  | workerNode :: rest =>
      SendCommandListToWorkerInSingleTransaction env
        (workerName workerNode) (workerPort workerNode) extensionOwner
        commandList;;
      SendCommandToAllWorkers_from extensionOwner commandList rest
  end.

Definition SendCommandToAllWorkers (commandList : list string) : M unit :=
  fun tr =>
    let extensionOwner := CitusExtensionOwnerName env in
    let workerNodeList := ActiveReadableNodeList env tr in
    SendCommandToAllWorkers_from extensionOwner commandList workerNodeList tr.

Definition CreateSchemasOnAllWorkers (createSchemasCommand : string) : M unit :=
  SendCommandToAllWorkers [createSchemasCommand].

Definition CreateTemporarySchemas (h : Heap) (mergeTasks : list TaskPtr)
  : M (list N) :=
  let jobIds := CreateJobIds h mergeTasks in
  let createSchemasCommand := GenerateCreateSchemasCommand jobIds in
  CreateSchemasOnAllWorkers createSchemasCommand;;
  mret jobIds.

Definition CleanUpSchemas : M unit :=
  SendCommandToAllWorkers [JOB_SCHEMA_CLEANUP env].

Definition RemoveTempJobDirs (jobIds : list N) : M unit :=
  SendCommandToAllWorkers [GenerateDeleteJobsCommand jobIds].

(** [ExecuteTasksInDependencyOrder] is declared for this file in a header;
    its definition in the sources is the one of
    adaptive_executor_repartioning.c. *)
Definition ExecuteDependedTasks (h : Heap) (topLevelTasks : list TaskPtr)
  : M unit :=
  EnsureNoModificationsHaveBeenDone env;;
  let allTasks := TaskAndExecutionList env h topLevelTasks in
  let mergeTasks := FillTaskGroups h allTasks in
  jobIds ← CreateTemporarySchemas h mergeTasks;
  AdaptiveExecutorRepartitioning.ExecuteTasksInDependencyOrder env h allTasks
    topLevelTasks;;
  RemoveTempJobDirs jobIds.

End WithCollaborators.
End RepartitionLogic.

(** * Vocabulary of the statements *)

(** The identities of a list of tasks. *)
Definition keysOf (h : Heap) (l : list TaskPtr) : HTAB :=
  list_to_set (AdaptiveExecutorRepartitioning.FillTaskKey h <$> l).

Definition succeeded (env : Collaborators) (tr : Trace) (ev : Event) : bool :=
  match ev with
  | EvTrackerCleanupJobDirectories => true
  | EvSendCommandList name port user commandList =>
      sendSucceeds env tr name port user commandList
  | EvExecuteTaskList taskList => executeSucceeds env tr taskList
  end.

Definition failureOf (ev : Event) : Failure :=
  match ev with
  | EvExecuteTaskList _ => RemoteExecutionFailed
  | _ => BroadcastFailed
  end.

(** [extends env tr0 tr]: [tr] is [tr0] followed by calls that succeeded. *)
Inductive extends (env : Collaborators) (tr0 : Trace) : Trace -> Prop :=
| extends_refl : extends env tr0 tr0
| extends_snoc tr ev :
    extends env tr0 tr -> succeeded env tr ev = true ->
    extends env tr0 (tr ++ [ev]).

(** A computation is sound when it stops at the first call that fails and
    reports that failure. *)
Definition sound (env : Collaborators) {A} (c : M A) : Prop :=
  forall tr0,
    extends env tr0 (snd (c tr0))
    \/ exists tr1 ev,
         snd (c tr0) = tr1 ++ [ev] /\ extends env tr0 tr1
         /\ succeeded env tr1 ev = false
         /\ fst (c tr0) = Err (failureOf ev).


(** [d] is an entry of the [dependedTaskList] of the task [t] of the
    collection. *)
Definition depends (h : Heap) (allTasks : list TaskPtr) (d t : TaskPtr)
  : Prop :=
  t ∈ allTasks /\ d ∈ dependedTaskList (h t).

(** The invariants of the data model for the tasks of one run: an identity
    belongs to one task, the entries of a [dependedTaskList] are tasks of
    the run, and the dependency edges have no cycle. *)
Record ValidDAG (h : Heap) (allTasks topLevelTasks : list TaskPtr) : Prop :=
  mkValidDAG {
  identity_unique :
    forall t1 t2,
      t1 ∈ allTasks ++ topLevelTasks -> t2 ∈ allTasks ++ topLevelTasks ->
      AdaptiveExecutorRepartitioning.FillTaskKey h t1
      = AdaptiveExecutorRepartitioning.FillTaskKey h t2 ->
      t1 = t2;
  deps_closed :
    forall t d,
      t ∈ allTasks -> d ∈ dependedTaskList (h t) ->
      d ∈ allTasks ++ topLevelTasks;
  acyclic : forall t, ~ tc (depends h allTasks) t t
}.

(** The calls of a broadcast that reached all of [workers]. *)
Definition sendEvents (owner : string) (commandList : list string)
    (workers : list WorkerNode) : Trace :=
  (fun w => EvSendCommandList (workerName w) (workerPort w) owner commandList)
    <$> workers.

Definition isOk {A} (r : Result A) : bool :=
  match r with
  | Ok _ => true
  | Err _ => false
  end.

(** The distinct values of a list in the order in which they are first
    seen: the job ids of section 4.3 of the specification. *)
Fixpoint distinctFirstSeen (l : list N) : list N :=
  match l with
  | [] => []
  | x :: rest => x :: filter (fun y => y <> x) (distinctFirstSeen rest)
  end.

(** One statement per job id, in sequence. *)
Definition statements (templateCommand : N -> string) (jobIds : list N)
  : string :=
  foldr (fun jobId rest => templateCommand jobId +:+ rest) EmptyString jobIds.

(** A task without its query string. *)
Definition withoutQueryString (t : Task) : Task :=
  mkTask (jobId t) (taskId t) (taskType t) (dependedTaskList t) EmptyString
    (taskPlacementList t) (partitionId t) (upstreamTaskId t).

(** The fetch command of section 4.2: the template applied to the
    producing job id, the producing task id, the partition of the fetch
    task, its destination task and the node of the placement. *)
Definition fetchCommand (env : Collaborators) (h : Heap)
    (fetchTask producer : TaskPtr) (placement : ShardPlacement) : string :=
  MAP_OUTPUT_FETCH_COMMAND env
    (jobId (h producer)) (taskId (h producer))
    (partitionId (h fetchTask)) (upstreamTaskId (h fetchTask))
    (nodeName placement) (nodePort placement).

(** The first dependency of the task and the first placement of that
    dependency exist. *)
Definition hasProducerPlacement (h : Heap) (task : TaskPtr) : Prop :=
  exists producer others placement replicas,
    dependedTaskList (h task) = producer :: others
    /\ taskPlacementList (h producer) = placement :: replicas.

(** The types that the two assertions of [MapFetchTaskQueryString] ask
    for. *)
Definition wellTyped (h : Heap) (task : TaskPtr) : Prop :=
  taskType (h task) = MAP_OUTPUT_FETCH_TASK
  /\ forall producer others,
       dependedTaskList (h task) = producer :: others ->
       taskType (h producer) = MAP_TASK.

(** One of the two assertions fails on the task. *)
Definition mistyped (h : Heap) (task : TaskPtr) : Prop :=
  taskType (h task) <> MAP_OUTPUT_FETCH_TASK
  \/ exists producer others,
       dependedTaskList (h task) = producer :: others
       /\ taskType (h producer) <> MAP_TASK.

(** * Concrete runs *)

Definition plainTask (job task : N) (type : TaskType) (deps : list TaskPtr)
  : Task :=
  mkTask job task type deps EmptyString [] 0 0.

(** Collaborators for the examples: two workers, every broadcast succeeds,
    and the expansion of the task tree is given. *)
Definition exampleEnvWith (assertions : bool) (expanded : list TaskPtr)
    (modified : bool) (execute : Trace -> list TaskPtr -> bool)
  : Collaborators :=
  {| USE_ASSERT_CHECKING := assertions;
     MAP_OUTPUT_FETCH_COMMAND := fun job task partition merge name port =>
       "fetch(" +:+ pretty job +:+ "," +:+ pretty task +:+ ","
       +:+ pretty partition +:+ "," +:+ pretty merge +:+ ","
       +:+ name +:+ "," +:+ pretty port +:+ ")";
     WORKER_CREATE_SCHEMA_QUERY := fun job =>
       "create(" +:+ pretty job +:+ ");";
     WORKER_DELETE_JOBDIR_QUERY := fun job =>
       "delete(" +:+ pretty job +:+ ");";
     JOB_SCHEMA_CLEANUP := "cleanup()";
     CitusExtensionOwnerName := "owner";
     ActiveReadableNodeList := fun _ =>
       [mkWorkerNode "w1" 5432; mkWorkerNode "w2" 5433];
     TaskAndExecutionList := fun _ _ => expanded;
     sendSucceeds := fun _ _ _ _ _ => true;
     executeSucceeds := execute;
     modificationsDone := modified |}.

(** Every dispatch succeeds. *)
Definition exampleEnv (assertions : bool) (expanded : list TaskPtr)
    (modified : bool) : Collaborators :=
  exampleEnvWith assertions expanded modified (fun _ _ => true).

(** Scenario A under a top-level task: T1 and T2 have no dependency, T3
    depends on T1 and T2, and the top-level task 0 depends on all three.
    The breadth-first expansion of the tree of task 0 is [0; 1; 2; 3]. *)
Definition scenarioA : Heap := fun p =>
  match p with
  | 0 => plainTask 2 1 SELECT_TASK [1; 2; 3]
  | 1 => plainTask 1 1 MAP_TASK []
  | 2 => plainTask 1 2 MAP_TASK []
  | 3 => plainTask 1 3 MERGE_TASK [1; 2]
  | _ => plainTask 0 0 TASK_TYPE_INVALID_FIRST []
  end.

(** Two tasks that wait for each other under a top-level task. *)
Definition cyclicHeap : Heap := fun p =>
  match p with
  | 0 => plainTask 2 1 SELECT_TASK [1]
  | 1 => plainTask 1 1 MAP_TASK [2]
  | 2 => plainTask 1 2 MAP_TASK [1]
  | _ => plainTask 0 0 TASK_TYPE_INVALID_FIRST []
  end.

(** A repartition job under the top-level task 0: the merge task 1 waits
    for the fetch task 2, which fetches partition 4 of the map task 3 for
    the merge task; the map task has two replicas. *)
Definition repartitionHeap : Heap := fun p =>
  match p with
  | 0 => plainTask 8 1 SELECT_TASK [1]
  | 1 => plainTask 7 1 MERGE_TASK [2]
  | 2 => mkTask 7 2 MAP_OUTPUT_FETCH_TASK [3] EmptyString [] 4 1
  | 3 => mkTask 7 3 MAP_TASK [] "SELECT 1"
           [mkShardPlacement "w1" 5432; mkShardPlacement "w2" 5433] 0 0
  | _ => plainTask 0 0 TASK_TYPE_INVALID_FIRST []
  end.

(** The same tasks with a merge task where the map task should be. *)
Definition mistypedHeap : Heap := fun p =>
  match p with
  | 3 => mkTask 7 3 MERGE_TASK [] "SELECT 1"
           [mkShardPlacement "w1" 5432; mkShardPlacement "w2" 5433] 0 0
  | _ => repartitionHeap p
  end.

(** Merge tasks with the job ids 5, 5 and 7. *)
Definition scenarioC : Heap := fun p =>
  match p with
  | 0 => plainTask 5 1 MERGE_TASK []
  | 1 => plainTask 5 2 MERGE_TASK []
  | 2 => plainTask 7 1 MERGE_TASK []
  | _ => plainTask 0 0 TASK_TYPE_INVALID_FIRST []
  end.

(** The repartition job with a second dependency, the map task 4, on the
    fetch task. *)
Definition twoProducersHeap : Heap := fun p =>
  match p with
  | 2 => mkTask 7 2 MAP_OUTPUT_FETCH_TASK [3; 4] EmptyString [] 4 1
  | 4 => mkTask 7 4 MAP_TASK [] "SELECT 2" [mkShardPlacement "w2" 5433] 0 0
  | _ => repartitionHeap p
  end.

(** * Further definitions *)

(** ** The hash function of the table *)

Section TaskHashing.

(** PostgreSQL's [hash_uint32] and [hash_combine], on 32-bit values. *)
Variable hash_uint32 : N -> N.
Variable hash_combine : N -> N -> N.

(** The cast [(uint32) taskKey->jobId] keeps the low 32 bits of the job
    id. *)
Definition TaskHash (key : TaskHashKey) : N :=
  let hash := 0%N in
  let hash :=
    hash_combine hash (hash_uint32 (key_jobId key mod 2 ^ 32)%N) in
  let hash := hash_combine hash (hash_uint32 (key_taskId key)) in
  hash.

End TaskHashing.

(** ** Orders of dispatch *)

(** Every dependency of a task of [l] has its identity in [table] or is the
    identity of a task that stands before it in [l]. *)
Fixpoint depsBefore (h : Heap) (table : HTAB) (l : list TaskPtr) : Prop :=
  match l with
  | [] => True
  | t :: rest =>
      (forall d, d ∈ dependedTaskList (h t) ->
                 AdaptiveExecutorRepartitioning.FillTaskKey h d ∈ table)
      /\ depsBefore h
           ({[ AdaptiveExecutorRepartitioning.FillTaskKey h t ]} ∪ table) rest
  end.

(** Every dependency of a task of a batch has its identity in [table] or is
    the identity of a task of a batch before it. *)
Fixpoint wavesFrom (h : Heap) (table : HTAB) (batches : list (list TaskPtr))
  : Prop :=
  match batches with
  | [] => True
  | batch :: rest =>
      (forall t d, t ∈ batch -> d ∈ dependedTaskList (h t) ->
                   AdaptiveExecutorRepartitioning.FillTaskKey h d ∈ table)
      /\ wavesFrom h (keysOf h batch ∪ table) rest
  end.

(** In [allTasks] a task stands before all its dependencies, the top-level
    tasks aside: the order of a breadth-first walk of a layered task
    tree. *)
Definition DependentsFirst (h : Heap) (allTasks topLevelTasks : list TaskPtr)
  : Prop :=
  forall before t after,
    allTasks = before ++ t :: after ->
    forall d, d ∈ dependedTaskList (h t) -> d ∈ after \/ d ∈ topLevelTasks.

(** ** A worker that rejects *)

(** The collaborators of the examples with a second worker that rejects
    every command: a call is accepted when no call was made before it. *)
Definition rejectingEnv (expanded : list TaskPtr) : Collaborators :=
  {| USE_ASSERT_CHECKING := false;
     MAP_OUTPUT_FETCH_COMMAND :=
       MAP_OUTPUT_FETCH_COMMAND (exampleEnv false expanded false);
     WORKER_CREATE_SCHEMA_QUERY :=
       WORKER_CREATE_SCHEMA_QUERY (exampleEnv false expanded false);
     WORKER_DELETE_JOBDIR_QUERY :=
       WORKER_DELETE_JOBDIR_QUERY (exampleEnv false expanded false);
     JOB_SCHEMA_CLEANUP := "cleanup()";
     CitusExtensionOwnerName := "owner";
     ActiveReadableNodeList := fun _ =>
       [mkWorkerNode "w1" 5432; mkWorkerNode "w2" 5433];
     TaskAndExecutionList := fun _ _ => expanded;
     sendSucceeds := fun tr _ _ _ _ => bool_decide (tr = []);
     executeSucceeds := fun _ _ => true;
     modificationsDone := false |}.
(** * Properties *)

(** ** The completed-task table *)

Lemma TaskHashCompare_eq key1 key2 :
  TaskHashCompare key1 key2 = false <-> key1 = key2.
Proof.
  destruct key1 as [j1 t1], key2 as [j2 t2]; unfold TaskHashCompare; simpl.
  rewrite orb_false_iff, !negb_false_iff, !N.eqb_eq.
  split; [intros [-> ->]; reflexivity | intros [= -> ->]; auto].
Qed.

Lemma hash_search_find hashp key :
  hash_search hashp key HASH_FIND = (hashp, bool_decide (key ∈ hashp)).
Proof. reflexivity. Qed.

Lemma hash_search_enter_found hashp key :
  key ∈ hashp -> hash_search hashp key HASH_ENTER = (hashp, true).
Proof.
  intros Hin; unfold hash_search.
  rewrite bool_decide_eq_true_2 by done.
  f_equal. apply leibniz_equiv. set_solver.
Qed.

Lemma hash_search_enter_new hashp key :
  key ∉ hashp -> hash_search hashp key HASH_ENTER = ({[ key ]} ∪ hashp, false).
Proof.
  intros Hin; unfold hash_search. by rewrite bool_decide_eq_false_2.
Qed.

Section SchedulerFacts.

Import AdaptiveExecutorRepartitioning.

Variable env : Collaborators.
Variable h : Heap.

Lemma keysOf_elem t l : t ∈ l -> FillTaskKey h t ∈ keysOf h l.
Proof.
  intros Hin; unfold keysOf. apply elem_of_list_to_set, list_elem_of_fmap.
  by exists t.
Qed.

Lemma keysOf_inv k l : k ∈ keysOf h l -> exists t, t ∈ l /\ FillTaskKey h t = k.
Proof.
  unfold keysOf; rewrite elem_of_list_to_set, list_elem_of_fmap.
  intros (t & -> & Hin); eauto.
Qed.

Lemma AddCompletedTasks_keys l completedTasks :
  AddCompletedTasks h l completedTasks = keysOf h l ∪ completedTasks.
Proof.
  revert completedTasks; induction l as [|t l IH]; intros c; simpl.
  - unfold keysOf; simpl. apply leibniz_equiv. set_solver.
  - rewrite IH. unfold keysOf; simpl. apply leibniz_equiv. set_solver.
Qed.

Lemma IsAllDependencyCompleted_from_true cells completedTasks :
  IsAllDependencyCompleted_from h cells completedTasks = true <->
  forall d, d ∈ cells -> FillTaskKey h d ∈ completedTasks.
Proof.
  induction cells as [|d cells IH]; simpl.
  - split; [intros _ d Hd; by apply elem_of_nil in Hd | done].
  - destruct (decide (FillTaskKey h d ∈ completedTasks)) as [Hin|Hout].
    + rewrite bool_decide_eq_true_2 by done; simpl. rewrite IH.
      split; [intros H d' [->|Hd']%elem_of_cons; auto
             | intros H d' Hd'; apply H; by right].
    + rewrite bool_decide_eq_false_2 by done; simpl.
      split; [done | intros H; exfalso; apply Hout, H; by left].
Qed.

Lemma IsAllDependencyCompleted_true t completedTasks :
  IsAllDependencyCompleted h t completedTasks = true <->
  forall d, d ∈ dependedTaskList (h t) -> FillTaskKey h d ∈ completedTasks.
Proof. apply IsAllDependencyCompleted_from_true. Qed.

(** One scan: the tasks it adds to the batch are exactly the keys it adds
    to the table. *)
Lemma scanTasks_spec cells completedTasks curTasks :
  exists new,
    scanTasks h cells completedTasks curTasks
      = (keysOf h new ∪ completedTasks, curTasks ++ new)
    /\ sublist new cells
    /\ NoDup (FillTaskKey h <$> new)
    /\ (forall t, t ∈ new -> FillTaskKey h t ∉ completedTasks)
    /\ (new = [] ->
        forall t, t ∈ cells ->
          (forall d, d ∈ dependedTaskList (h t) ->
                     FillTaskKey h d ∈ completedTasks) ->
          FillTaskKey h t ∈ completedTasks).
Proof.
  revert completedTasks curTasks.
  induction cells as [|task rest IH]; intros c cur; cbn [scanTasks].
  - exists []. rewrite app_nil_r. unfold keysOf; simpl.
    repeat split; try constructor.
    + f_equal. apply leibniz_equiv. set_solver.
    + intros t Ht; by apply elem_of_nil in Ht.
    + intros _ t Ht; by apply elem_of_nil in Ht.
  - destruct (IsAllDependencyCompleted h task c) eqn:Hdeps.
    + unfold IsTaskAlreadyCompleted.
      destruct (decide (FillTaskKey h task ∈ c)) as [Hin|Hout].
      * rewrite hash_search_enter_found by done; cbn [negb].
        destruct (IH c cur) as (new & Heq & Hsub & Hnd & Hfresh & Hnone).
        exists new. repeat split; auto.
        -- by apply sublist_cons.
        -- intros Hnil t [->|Ht]%elem_of_cons Hd; auto.
      * rewrite hash_search_enter_new by done; cbn [negb].
        destruct (IH ({[FillTaskKey h task]} ∪ c) (lappend cur task))
          as (new & Heq & Hsub & Hnd & Hfresh & Hnone).
        exists (task :: new). repeat split.
        -- rewrite Heq. unfold lappend, keysOf; simpl. rewrite <- app_assoc.
           f_equal. apply leibniz_equiv. set_solver.
        -- by apply sublist_skip.
        -- simpl. constructor; auto.
           intros (t & Hk & Ht)%list_elem_of_fmap.
           apply (Hfresh t Ht). rewrite <- Hk. set_solver.
        -- intros t [->|Ht]%elem_of_cons; auto.
           intros Hc. apply (Hfresh t Ht). set_solver.
        -- discriminate.
    + destruct (IH c cur) as (new & Heq & Hsub & Hnd & Hfresh & Hnone).
      exists new. repeat split; auto.
      * by apply sublist_cons.
      * intros Hnil t [->|Ht]%elem_of_cons Hd; auto.
        apply IsAllDependencyCompleted_true in Hd. congruence.
Qed.

End SchedulerFacts.

Section DrainFacts.

Import AdaptiveExecutorRepartitioning.

Variable env : Collaborators.
Variable h : Heap.

Lemma keysOf_app l1 l2 : keysOf h (l1 ++ l2) = keysOf h l1 ∪ keysOf h l2.
Proof.
  unfold keysOf. rewrite fmap_app. apply leibniz_equiv.
  by rewrite list_to_set_app.
Qed.

(** The loop: what it dispatches and the table it ends with. *)
Lemma drain_spec budget allTasks completedTasks tr :
  exists batches,
    snd (drain env budget h allTasks completedTasks tr)
      = tr ++ (EvExecuteTaskList <$> batches)
    /\ Forall (fun batch => batch <> []) batches
    /\ NoDup (FillTaskKey h <$> concat batches)
    /\ (forall t, t ∈ concat batches ->
          t ∈ allTasks /\ FillTaskKey h t ∉ completedTasks)
    /\ match fst (drain env budget h allTasks completedTasks tr) with
       | Ok table =>
           table = keysOf h (concat batches) ∪ completedTasks
           /\ (forall t, t ∈ allTasks ->
                 (forall d, d ∈ dependedTaskList (h t) ->
                            FillTaskKey h d ∈ table) ->
                 FillTaskKey h t ∈ table)
       | Err RemoteExecutionFailed => batches <> []
       | Err LoopBudget => budget <= length batches
       | Err _ => False
       end.
Proof.
  revert completedTasks tr.
  induction budget as [|budget IH]; intros c tr.
  - exists []. simpl. rewrite app_nil_r.
    split_and!; [done | apply Forall_nil_2 | apply NoDup_nil_2 | | done].
    intros t Ht; by apply elem_of_nil in Ht.
  - cbn [drain].
    destruct (scanTasks_spec h allTasks c [])
      as (new & Heq & Hsub & Hnd & Hfresh & Hnone).
    rewrite Heq. cbn [app].
    destruct new as [|t0 new'].
    + exists []. simpl. rewrite app_nil_r.
      assert (Hc : keysOf h [] ∪ c = c)
        by (unfold keysOf; simpl; apply leibniz_equiv; set_solver).
      rewrite Hc.
      split_and!; [done | apply Forall_nil_2 | apply NoDup_nil_2 | | done
                  | by apply Hnone].
      intros t Ht; by apply elem_of_nil in Ht.
    + set (new := t0 :: new') in *.
      change (Nat.eqb (list_length new) 0) with false. cbv iota.
      unfold mbind, M_bind, ExecuteTaskList.
      destruct (executeSucceeds env tr new) eqn:Hexec.
      * rewrite AddCompletedTasks_keys.
        set (c2 := keysOf h new ∪ (keysOf h new ∪ c)).
        destruct (IH c2 (tr ++ [EvExecuteTaskList new]))
          as (batches & Htr & Hne & Hnd' & Hfresh' & Hres).
        exists (new :: batches).
        split; [rewrite Htr, <- app_assoc; reflexivity|].
        split; [constructor; [by subst new | exact Hne]|].
        assert (Hdisj : forall t, t ∈ concat batches ->
                          FillTaskKey h t ∉ keysOf h new ∪ c).
        { intros t Ht Hk. apply (proj2 (Hfresh' t Ht)).
          unfold c2. by apply elem_of_union_r. }
        split.
        { cbn [concat]. rewrite fmap_app. apply NoDup_app.
          split; [exact Hnd|]. split; [|exact Hnd'].
          intros k (t1 & -> & Ht1)%list_elem_of_fmap
                   (t2 & Hk & Ht2)%list_elem_of_fmap.
          apply (Hdisj t2 Ht2). rewrite <- Hk.
          apply elem_of_union_l. by apply keysOf_elem. }
        split.
        { cbn [concat]. intros t [Ht|Ht]%elem_of_app.
          - split; [by eapply elem_of_sublist | by apply Hfresh].
          - split; [by apply Hfresh'|].
            intros Hk. apply (Hdisj t Ht). by apply elem_of_union_r. }
        destruct (drain env budget h allTasks c2
                    (tr ++ [EvExecuteTaskList new])) as [[table|e] tr'].
        -- cbn [fst] in *. destruct Hres as [-> Hclosed].
           assert (Ht : keysOf h (concat batches) ∪ c2
                        = keysOf h (concat (new :: batches)) ∪ c).
           { cbn [concat]. rewrite keysOf_app. unfold c2.
             generalize (keysOf h new) (keysOf h (concat batches)).
             intros X Y. apply leibniz_equiv. set_solver. }
           rewrite <- Ht. split; [reflexivity | exact Hclosed].
        -- cbn [fst] in *. destruct e; try done. cbn [length]. lia.
      * exists [new]. cbn [fst snd fmap list_fmap concat].
        rewrite app_nil_r.
        split; [reflexivity|].
        split; [constructor; [by subst new | constructor]|].
        split; [exact Hnd|].
        split; [|done].
        intros t Ht. split; [by eapply elem_of_sublist | by apply Hfresh].
Qed.

End DrainFacts.

(** ** Traces: every remote call but a failing last one succeeded *)

Section Soundness.

Variable env : Collaborators.

Lemma extends_trans tr0 tr1 tr2 :
  extends env tr0 tr1 -> extends env tr1 tr2 -> extends env tr0 tr2.
Proof.
  intros H01 H12; induction H12 as [|tr ev _ IH Hev]; [exact H01|].
  by apply extends_snoc.
Qed.

Lemma extends_prefix tr0 tr : extends env tr0 tr -> exists evs, tr = tr0 ++ evs.
Proof.
  induction 1 as [|tr ev _ [evs ->] _].
  - exists []. by rewrite app_nil_r.
  - exists (evs ++ [ev]). by rewrite app_assoc.
Qed.

(** In an extension every call made after [tr0] succeeded, when asked with
    the trace that preceded it. *)
Lemma extends_succeeded tr0 tr :
  extends env tr0 tr ->
  forall pre ev post,
    tr = pre ++ ev :: post -> length tr0 <= length pre ->
    succeeded env pre ev = true.
Proof.
  induction 1 as [|tr ev' Hext IH Hev]; intros pre ev post Heq Hlen.
  - apply (f_equal length) in Heq. rewrite length_app in Heq. simpl in Heq. lia.
  - destruct post as [|x post _] using rev_ind.
    + apply app_inj_tail in Heq as [-> ->]. exact Hev.
    + rewrite app_comm_cons, app_assoc in Heq.
      apply app_inj_tail in Heq as [-> ->]. by eapply IH.
Qed.

Lemma sound_ret {A} (a : A) : sound env (mret a).
Proof. intros tr0; left; constructor. Qed.

Lemma sound_raise {A} e : sound env (@raise A e).
Proof. intros tr0; left; constructor. Qed.

Lemma sound_lift {A} (r : Result A) : sound env (lift r).
Proof. intros tr0; left; constructor. Qed.

Lemma sound_bind {A B} (c : M A) (k : A -> M B) :
  sound env c -> (forall a, sound env (k a)) -> sound env (c ≫= k).
Proof.
  intros Hc Hk tr0. unfold mbind, M_bind.
  destruct (Hc tr0) as [Hext|(tr1 & ev & Htr & Hext & Hev & Hres)].
  - destruct (c tr0) as [[a|e] tr]; cbn [fst snd] in *; [|by left].
    destruct (Hk a tr) as [Hext'|(tr1 & ev & Htr & Hext' & Hev & Hres)].
    + left. by eapply extends_trans.
    + right. exists tr1, ev. split_and!; auto. by eapply extends_trans.
  - destruct (c tr0) as [[a|e] tr]; cbn [fst snd] in *; [done|].
    right. exists tr1, ev. split_and!; auto.
    injection Hres as ->. reflexivity.
Qed.

Lemma sound_ExecuteTaskList taskList : sound env (ExecuteTaskList env taskList).
Proof.
  intros tr0. unfold ExecuteTaskList.
  destruct (executeSucceeds env tr0 taskList) eqn:Hok; cbn [fst snd].
  - left. apply extends_snoc; [constructor | exact Hok].
  - right. exists tr0, (EvExecuteTaskList taskList).
    split_and!; auto. constructor.
Qed.

Lemma sound_SendCommandList name port user commandList :
  sound env (SendCommandListToWorkerInSingleTransaction env name port user
               commandList).
Proof.
  intros tr0. unfold SendCommandListToWorkerInSingleTransaction.
  destruct (sendSucceeds env tr0 name port user commandList) eqn:Hok;
    cbn [fst snd].
  - left. apply extends_snoc; [constructor | exact Hok].
  - right. exists tr0, (EvSendCommandList name port user commandList).
    split_and!; auto. constructor.
Qed.

Lemma sound_EnsureNoModificationsHaveBeenDone :
  sound env (EnsureNoModificationsHaveBeenDone env).
Proof.
  unfold EnsureNoModificationsHaveBeenDone.
  destruct (modificationsDone env); [apply sound_raise | apply sound_ret].
Qed.

Lemma sound_drain budget h allTasks completedTasks :
  sound env (AdaptiveExecutorRepartitioning.drain env budget h allTasks
               completedTasks).
Proof.
  revert completedTasks; induction budget as [|budget IH]; intros c.
  - apply sound_raise.
  - cbn [AdaptiveExecutorRepartitioning.drain].
    destruct (AdaptiveExecutorRepartitioning.scanTasks h allTasks c [])
      as [c1 cur].
    destruct (Nat.eqb (list_length cur) 0); [apply sound_ret|].
    apply sound_bind; [apply sound_ExecuteTaskList | intros _; apply IH].
Qed.

Lemma sound_ExecuteTasksInDependencyOrder h allTasks topLevelTasks :
  sound env (AdaptiveExecutorRepartitioning.ExecuteTasksInDependencyOrder env
               h allTasks topLevelTasks).
Proof.
  apply sound_bind; [apply sound_drain | intros _; apply sound_ret].
Qed.

Lemma sound_SendCommandToAllWorkers_from owner commandList workers :
  sound env (RepartitionLogic.SendCommandToAllWorkers_from env owner
               commandList workers).
Proof.
  induction workers as [|w workers IH]; [apply sound_ret|].
  apply sound_bind; [apply sound_SendCommandList | intros _; apply IH].
Qed.

Lemma sound_SendCommandToAllWorkers commandList :
  sound env (RepartitionLogic.SendCommandToAllWorkers env commandList).
Proof.
  intros tr0. unfold RepartitionLogic.SendCommandToAllWorkers.
  apply sound_SendCommandToAllWorkers_from.
Qed.

Lemma sound_ExecuteDependedTasks h topLevelTasks :
  sound env (RepartitionLogic.ExecuteDependedTasks env h topLevelTasks).
Proof.
  unfold RepartitionLogic.ExecuteDependedTasks.
  apply sound_bind; [apply sound_EnsureNoModificationsHaveBeenDone|intros _].
  apply sound_bind.
  - apply sound_bind; [apply sound_SendCommandToAllWorkers|].
    intros _; apply sound_ret.
  - intros jobIds. apply sound_bind.
    + apply sound_ExecuteTasksInDependencyOrder.
    + intros _. apply sound_SendCommandToAllWorkers.
Qed.

End Soundness.

(** ** The scheduler: what a run dispatches *)

Section SchedulerRun.

Import AdaptiveExecutorRepartitioning.

Variable env : Collaborators.
Variable h : Heap.

Lemma ExecuteTasksInDependencyOrder_unfold allTasks topLevelTasks tr :
  ExecuteTasksInDependencyOrder env h allTasks topLevelTasks tr
  = (match fst (ExecuteTasksInDependencyOrder_table env h allTasks
                  topLevelTasks tr) with
     | Ok _ => Ok tt
     | Err e => Err e
     end,
     snd (ExecuteTasksInDependencyOrder_table env h allTasks topLevelTasks tr)).
Proof.
  unfold ExecuteTasksInDependencyOrder, mbind, M_bind.
  by destruct (ExecuteTasksInDependencyOrder_table env h allTasks
                 topLevelTasks tr) as [[table|e] tr'].
Qed.

Lemma elem_of_concat {A} (x : A) (batches : list (list A)) :
  x ∈ concat batches <-> exists batch, batch ∈ batches /\ x ∈ batch.
Proof.
  induction batches as [|b batches IH]; simpl.
  - split; [intros H; by apply elem_of_nil in H|].
    intros (batch & H & _); by apply elem_of_nil in H.
  - rewrite elem_of_app, IH. split.
    + intros [H|(batch & Hb & Hx)].
      * exists b. split; [by left | done].
      * exists batch. split; [by right | done].
    + intros (batch & [->|Hb]%elem_of_cons & Hx); [by left|].
      right. by exists batch.
Qed.

Lemma length_concat_nonempty {A} (batches : list (list A)) :
  Forall (fun batch => batch <> []) batches ->
  length batches <= length (concat batches).
Proof.
  induction 1 as [|batch batches Hne _ IH]; simpl; [lia|].
  rewrite length_app. destruct batch; [done|]. simpl. lia.
Qed.

(** The number of iterations allowed to the loop is never exhausted: every
    iteration but the last dispatches a task that no earlier one did. *)
Lemma table_run_spec allTasks topLevelTasks tr :
  exists batches,
    snd (ExecuteTasksInDependencyOrder_table env h allTasks topLevelTasks tr)
      = tr ++ (EvExecuteTaskList <$> batches)
    /\ Forall (fun batch => batch <> []) batches
    /\ NoDup (FillTaskKey h <$> concat batches)
    /\ (forall t, t ∈ concat batches ->
          t ∈ allTasks /\ FillTaskKey h t ∉ keysOf h topLevelTasks)
    /\ match fst (ExecuteTasksInDependencyOrder_table env h allTasks
                    topLevelTasks tr) with
       | Ok table =>
           table = keysOf h (concat batches) ∪ keysOf h topLevelTasks
           /\ (forall t, t ∈ allTasks ->
                 (forall d, d ∈ dependedTaskList (h t) ->
                            FillTaskKey h d ∈ table) ->
                 FillTaskKey h t ∈ table)
       | Err e => e = RemoteExecutionFailed /\ batches <> []
       end.
Proof.
  unfold ExecuteTasksInDependencyOrder_table.
  rewrite AddCompletedTasks_keys.
  assert (Hempty : keysOf h topLevelTasks ∪ ∅ = keysOf h topLevelTasks)
    by (generalize (keysOf h topLevelTasks); intros X;
        apply leibniz_equiv; set_solver).
  rewrite Hempty.
  destruct (drain_spec env h (S (length allTasks)) allTasks
              (keysOf h topLevelTasks) tr)
    as (batches & Htr & Hne & Hnd & Hfresh & Hres).
  exists batches. split_and!; auto.
  destruct (fst (drain env (S (length allTasks)) h allTasks
                   (keysOf h topLevelTasks) tr)) as [table|e]; [exact Hres|].
  destruct e; try done.
  exfalso.
  assert (Hlen : length (concat batches) <= length allTasks).
  { apply submseteq_length, NoDup_submseteq.
    - by eapply NoDup_fmap_1.
    - intros t Ht. by apply Hfresh. }
  pose proof (length_concat_nonempty batches Hne). lia.
Qed.

End SchedulerRun.

(** ** Wave order *)

Lemma acyclic_by_rank (h : Heap) (allTasks : list TaskPtr)
    (rank : TaskPtr -> nat) :
  (forall d t, depends h allTasks d t -> rank d < rank t) ->
  forall t, ~ tc (depends h allTasks) t t.
Proof.
  intros Hrank.
  assert (Htc : forall d t, tc (depends h allTasks) d t -> rank d < rank t).
  { induction 1 as [d t Hdt|d m t Hdm _ IH]; [by apply Hrank|].
    apply Hrank in Hdm. lia. }
  intros t Ht. apply Htc in Ht. lia.
Qed.

Lemma scenarioA_valid : ValidDAG scenarioA [0; 1; 2; 3] [0].
Proof.
  split.
  - intros t1 t2 H1 H2 Hkey. set_unfold.
    destruct_or!; subst; first [reflexivity | discriminate Hkey].
  - intros t d Ht Hd. set_unfold.
    destruct_or!; subst; simpl in Hd; set_unfold; naive_solver.
  - apply (acyclic_by_rank _ _
             (fun p => match p with 0 => 2 | 3 => 1 | _ => 0 end)).
    intros d t [Ht Hd]. set_unfold.
    destruct_or!; subst; simpl in Hd; set_unfold;
      destruct_or?; subst; simpl; first [lia | done].
Qed.

(** C1 (the code departs from the claim).  [IsTaskAlreadyCompleted] looks
    the task up with [HASH_ENTER], so the scan itself puts a ready task in
    the table; a task listed after its dependencies then finds them
    completed in the very scan that batches them.  Scenario A expanded
    under a top-level task is a valid collection in which T3 depends on T1
    and T2, and the run dispatches T1, T2 and T3 in one wave; the waves
    T1,T2 then T3 appear only when T3 is listed before T1 and T2. *)
Theorem C1_scenarioA_dispatched_in_one_wave :
  ValidDAG scenarioA [0; 1; 2; 3] [0]
  /\ dependedTaskList (scenarioA 3) = [1; 2]
  /\ AdaptiveExecutorRepartitioning.ExecuteTasksInDependencyOrder
       (exampleEnv false [0; 1; 2; 3] false) scenarioA [0; 1; 2; 3] [0] []
     = (Ok tt, [EvExecuteTaskList [1; 2; 3]])
  /\ AdaptiveExecutorRepartitioning.ExecuteTasksInDependencyOrder
       (exampleEnv false [1; 2; 3] false) scenarioA [1; 2; 3] [] []
     = (Ok tt, [EvExecuteTaskList [1; 2; 3]])
  /\ AdaptiveExecutorRepartitioning.ExecuteTasksInDependencyOrder
       (exampleEnv false [0; 3; 1; 2] false) scenarioA [0; 3; 1; 2] [0] []
     = (Ok tt, [EvExecuteTaskList [1; 2]; EvExecuteTaskList [3]]).
Proof.
  split; [exact scenarioA_valid|].
  split_and!; vm_compute; reflexivity.
Qed.

(** A run of the scheduler makes dispatches and no other call. *)
Lemma scheduler_dispatches_only
    (env : Collaborators) (h : Heap) (allTasks topLevelTasks : list TaskPtr)
    (tr0 : Trace) :
  exists batches,
    snd (AdaptiveExecutorRepartitioning.ExecuteTasksInDependencyOrder env h
           allTasks topLevelTasks tr0)
      = tr0 ++ (EvExecuteTaskList <$> batches).
Proof.
  rewrite ExecuteTasksInDependencyOrder_unfold. cbn [snd].
  destruct (table_run_spec env h allTasks topLevelTasks tr0)
    as (batches & Htr & _). by exists batches.
Qed.

(** ** Top-level tasks *)

(** C3.  A run of the scheduler performs dispatches only, and no batch
    holds a task of the top-level list, nor a task with the identity of
    one. *)
Theorem C3_top_level_tasks_never_dispatched
    (env : Collaborators) (h : Heap) (allTasks topLevelTasks : list TaskPtr)
    (tr0 : Trace) :
  exists batches,
    snd (AdaptiveExecutorRepartitioning.ExecuteTasksInDependencyOrder env h
           allTasks topLevelTasks tr0)
      = tr0 ++ (EvExecuteTaskList <$> batches)
    /\ Forall (Forall (fun t =>
                 (t ∉ topLevelTasks)
                 /\ (AdaptiveExecutorRepartitioning.FillTaskKey h t
                     ∉ keysOf h topLevelTasks))) batches.
Proof.
  rewrite ExecuteTasksInDependencyOrder_unfold. cbn [snd].
  destruct (table_run_spec env h allTasks topLevelTasks tr0)
    as (batches & Htr & _ & _ & Hfresh & _).
  exists batches. split; [exact Htr|].
  apply Forall_forall; intros batch Hbatch.
  apply Forall_forall; intros t Ht.
  assert (Hin : t ∈ concat batches)
    by (apply elem_of_concat; eauto).
  destruct (Hfresh t Hin) as [_ Hkey].
  split; [|exact Hkey].
  intros Htop. apply Hkey. by apply keysOf_elem.
Qed.

(** ** Every task exactly once *)

(** A finite set of tasks each of which waits for a task of the set holds
    a cycle. *)
Lemma no_stuck_tasks (R : relation TaskPtr) (stuck : list TaskPtr) :
  (forall t, ~ tc R t t) ->
  (forall y, y ∈ stuck -> exists z, z ∈ stuck /\ tc R z y) ->
  stuck = [].
Proof.
  intros Hirr. induction stuck as [|x rest IH]; [done|].
  intros Hpred. exfalso.
  assert (Hrest : rest = []).
  { apply IH. intros y Hy.
    destruct (Hpred y) as (z & [->|Hz]%elem_of_cons & Hzy);
      [by right | | by eauto].
    destruct (Hpred x) as (w & [->|Hw]%elem_of_cons & Hwx); [by left | |].
    - by apply Hirr in Hwx.
    - exists w. split; [done | by etrans]. }
  subst rest.
  destruct (Hpred x) as (z & Hz & Hzx); [by left|].
  apply list_elem_of_singleton in Hz as ->. by apply Hirr in Hzx.
Qed.

Lemma filter_not_in_concat (t : TaskPtr) (batches : list (list TaskPtr)) :
  t ∉ concat batches -> filter (fun batch => t ∈ batch) batches = [].
Proof.
  induction batches as [|b batches IH]; simpl; [done|].
  rewrite not_elem_of_app. intros [Hb Hrest].
  rewrite filter_cons_False by done. by apply IH.
Qed.

Lemma one_batch_holds (t : TaskPtr) (batches : list (list TaskPtr)) :
  NoDup (concat batches) -> t ∈ concat batches ->
  length (filter (fun batch => t ∈ batch) batches) = 1.
Proof.
  induction batches as [|b batches IH]; simpl.
  - intros _ H; by apply elem_of_nil in H.
  - intros (Hb & Hdisj & Hrest)%NoDup_app [Ht|Ht]%elem_of_app.
    + rewrite filter_cons_True by done. simpl.
      rewrite filter_not_in_concat; [done | by apply Hdisj].
    + rewrite filter_cons_False; [by apply IH|].
      intros Hin. by apply (Hdisj t).
Qed.

(** When the loop has ended, a task of a valid collection is in the
    table. *)
Lemma closed_table_complete (h : Heap) (allTasks topLevelTasks : list TaskPtr)
    (table : HTAB) :
  ValidDAG h allTasks topLevelTasks ->
  keysOf h topLevelTasks ⊆ table ->
  (forall t, t ∈ allTasks ->
     (forall d, d ∈ dependedTaskList (h t) ->
                AdaptiveExecutorRepartitioning.FillTaskKey h d ∈ table) ->
     AdaptiveExecutorRepartitioning.FillTaskKey h t ∈ table) ->
  forall t, t ∈ allTasks ->
            AdaptiveExecutorRepartitioning.FillTaskKey h t ∈ table.
Proof.
  intros [_ Hclosed Hacyclic] Htop Hfix.
  set (key := AdaptiveExecutorRepartitioning.FillTaskKey h).
  set (stuck := filter (fun t => key t ∉ table) allTasks).
  assert (Hstuck : stuck = []).
  { apply (no_stuck_tasks (depends h allTasks)); [exact Hacyclic|].
    intros y [Hkey Hy]%list_elem_of_filter.
    destruct (decide (Forall (fun d => key d ∈ table)
                        (dependedTaskList (h y)))) as [Hall|Hnot].
    - exfalso. apply Hkey, Hfix; [done|].
      intros d Hd. by eapply (proj1 (Forall_forall _ _)) in Hall.
    - apply not_Forall_Exists in Hnot; [|apply _].
      apply Exists_exists in Hnot as (d & Hd & Hdkey).
      exists d. split; [|by apply tc_once].
      apply list_elem_of_filter. split; [exact Hdkey|].
      destruct (proj1 (elem_of_app _ _ _) (Hclosed y d Hy Hd)) as [|Hdtop];
        [done|].
      exfalso. apply Hdkey, Htop. by apply keysOf_elem. }
  intros t Ht.
  destruct (decide (key t ∈ table)) as [|Hout]; [done|].
  exfalso. assert (Hin : t ∈ stuck) by by apply list_elem_of_filter.
  rewrite Hstuck in Hin. by apply elem_of_nil in Hin.
Qed.

(** C2.  For a valid collection and a run in which no dispatch fails, the
    scheduler returns normally, no task occurs twice in what it dispatched,
    and every task of the collection outside the top-level list is in
    exactly one batch. *)
Theorem C2_every_task_dispatched_exactly_once
    (env : Collaborators) (h : Heap) (allTasks topLevelTasks : list TaskPtr)
    (tr0 : Trace) :
  ValidDAG h allTasks topLevelTasks ->
  fst (AdaptiveExecutorRepartitioning.ExecuteTasksInDependencyOrder env h
         allTasks topLevelTasks tr0) <> Err RemoteExecutionFailed ->
  exists batches,
    AdaptiveExecutorRepartitioning.ExecuteTasksInDependencyOrder env h
      allTasks topLevelTasks tr0
      = (Ok tt, tr0 ++ (EvExecuteTaskList <$> batches))
    /\ NoDup (concat batches)
    /\ Forall (fun t =>
         t ∈ topLevelTasks
         \/ length (filter (fun batch => t ∈ batch) batches) = 1) allTasks.
Proof.
  intros Hvalid. rewrite ExecuteTasksInDependencyOrder_unfold. cbn [fst].
  intros Hok.
  destruct (table_run_spec env h allTasks topLevelTasks tr0)
    as (batches & Htr & _ & Hnd & Hfresh & Hres).
  exists batches.
  destruct (fst (AdaptiveExecutorRepartitioning.ExecuteTasksInDependencyOrder_table
                   env h allTasks topLevelTasks tr0)) as [table|e];
    [|by destruct Hres as [-> _]].
  destruct Hres as [-> Hfix].
  assert (Hnd' : NoDup (concat batches)) by by eapply NoDup_fmap_1.
  split_and!; [by rewrite Htr | exact Hnd' |].
  apply Forall_forall; intros t Ht.
  destruct (decide (t ∈ topLevelTasks)) as [|Hnottop]; [by left | right].
  apply one_batch_holds; [exact Hnd'|].
  assert (Hkey : AdaptiveExecutorRepartitioning.FillTaskKey h t
                 ∈ keysOf h (concat batches) ∪ keysOf h topLevelTasks).
  { eapply closed_table_complete; eauto. apply union_subseteq_r. }
  apply elem_of_union in Hkey as [Hkey|Hkey];
    apply keysOf_inv in Hkey as (t' & Ht' & Heq).
  - assert (t' = t) as ->; [|done].
    apply (identity_unique _ _ _ Hvalid); [| |done].
    + apply elem_of_app; left. by apply Hfresh.
    + apply elem_of_app; by left.
  - assert (t' = t) as ->; [|done].
    apply (identity_unique _ _ _ Hvalid); [| |done].
    + apply elem_of_app; by right.
    + apply elem_of_app; by left.
Qed.

(** The theorem of C2 on scenario A. *)
Lemma C2_every_task_dispatched_exactly_once_witness :
  exists batches,
    AdaptiveExecutorRepartitioning.ExecuteTasksInDependencyOrder
      (exampleEnv false [0; 1; 2; 3] false) scenarioA [0; 1; 2; 3] [0] []
      = (Ok tt, [] ++ (EvExecuteTaskList <$> batches))
    /\ NoDup (concat batches)
    /\ Forall (fun t =>
         t ∈ [0]
         \/ length (filter (fun batch => t ∈ batch) batches) = 1)
         [0; 1; 2; 3].
Proof.
  apply C2_every_task_dispatched_exactly_once.
  - exact scenarioA_valid.
  - vm_compute. discriminate.
Defined.

(** ** The end of the loop *)

Section LoopExit.

Import AdaptiveExecutorRepartitioning.

Variable env : Collaborators.
Variable h : Heap.

(** A scan of a table that holds every task whose dependencies it holds
    changes nothing. *)
Lemma scanTasks_closed cells completedTasks curTasks :
  (forall t, t ∈ cells ->
     (forall d, d ∈ dependedTaskList (h t) ->
                FillTaskKey h d ∈ completedTasks) ->
     FillTaskKey h t ∈ completedTasks) ->
  scanTasks h cells completedTasks curTasks = (completedTasks, curTasks).
Proof.
  induction cells as [|task rest IH]; intros Hfix; cbn [scanTasks]; [done|].
  assert (Hrest : scanTasks h rest completedTasks curTasks
                  = (completedTasks, curTasks)).
  { apply IH. intros t Ht. apply Hfix. by right. }
  destruct (IsAllDependencyCompleted h task completedTasks) eqn:Hdeps;
    [|exact Hrest].
  unfold IsTaskAlreadyCompleted. rewrite hash_search_enter_found; [done|].
  apply Hfix; [by left|]. by apply IsAllDependencyCompleted_true.
Qed.

(** The loop leaves at an empty batch whatever the table holds. *)
Lemma drain_exits_on_empty_batch budget allTasks completedTasks tr :
  snd (scanTasks h allTasks completedTasks []) = [] ->
  drain env (S budget) h allTasks completedTasks tr = (Ok completedTasks, tr).
Proof.
  intros Hsnd. cbn [drain].
  destruct (scanTasks_spec h allTasks completedTasks [])
    as (new & Heq & _).
  rewrite Heq in Hsnd |- *. cbn [snd app] in Hsnd. subst new.
  assert (Hc : keysOf h [] ∪ completedTasks = completedTasks)
    by (unfold keysOf; simpl; apply leibniz_equiv; set_solver).
  rewrite Hc. reflexivity.
Qed.

End LoopExit.

(** C9.  A run in which no dispatch fails returns normally on every input,
    valid or not: it ends at a table whose readiness scan is empty, and the
    table is dropped without a look at the tasks it misses. *)
Theorem C9_empty_batch_ends_the_run_silently
    (env : Collaborators) (h : Heap) (allTasks topLevelTasks : list TaskPtr)
    (tr0 : Trace) :
  fst (AdaptiveExecutorRepartitioning.ExecuteTasksInDependencyOrder env h
         allTasks topLevelTasks tr0) <> Err RemoteExecutionFailed ->
  exists batches table,
    AdaptiveExecutorRepartitioning.ExecuteTasksInDependencyOrder_table env h
      allTasks topLevelTasks tr0
      = (Ok table, tr0 ++ (EvExecuteTaskList <$> batches))
    /\ AdaptiveExecutorRepartitioning.scanTasks h allTasks table []
       = (table, [])
    /\ AdaptiveExecutorRepartitioning.ExecuteTasksInDependencyOrder env h
         allTasks topLevelTasks tr0
       = (Ok tt, tr0 ++ (EvExecuteTaskList <$> batches)).
Proof.
  rewrite ExecuteTasksInDependencyOrder_unfold. cbn [fst]. intros Hok.
  destruct (table_run_spec env h allTasks topLevelTasks tr0)
    as (batches & Htr & _ & _ & _ & Hres).
  destruct (AdaptiveExecutorRepartitioning.ExecuteTasksInDependencyOrder_table
              env h allTasks topLevelTasks tr0) as [[table|e] tr] eqn:Hrun;
    cbn [fst snd] in *; [|by destruct Hres as [-> _]].
  exists batches, table. subst tr.
  split_and!; [done | | done].
  apply scanTasks_closed. by destruct Hres as [_ Hfix].
Qed.

(** The theorem of C9 on two tasks that wait for each other: the run
    returns normally. *)
Lemma C9_empty_batch_ends_the_run_silently_witness :
  exists batches table,
    AdaptiveExecutorRepartitioning.ExecuteTasksInDependencyOrder_table
      (exampleEnv false [0; 1; 2] false) cyclicHeap [0; 1; 2] [0] []
      = (Ok table, [] ++ (EvExecuteTaskList <$> batches))
    /\ AdaptiveExecutorRepartitioning.scanTasks cyclicHeap [0; 1; 2] table []
       = (table, [])
    /\ AdaptiveExecutorRepartitioning.ExecuteTasksInDependencyOrder
         (exampleEnv false [0; 1; 2] false) cyclicHeap [0; 1; 2] [0] []
       = (Ok tt, [] ++ (EvExecuteTaskList <$> batches)).
Proof.
  apply C9_empty_batch_ends_the_run_silently.
  vm_compute. discriminate.
Defined.

(** On that input nothing was dispatched and the two tasks are not in the
    table at the exit; on scenario A every task is, and the value returned
    is the same. *)
Example stuck_and_complete_runs_return_alike :
  AdaptiveExecutorRepartitioning.ExecuteTasksInDependencyOrder_table
    (exampleEnv false [0; 1; 2] false) cyclicHeap [0; 1; 2] [0] []
    = (Ok (keysOf cyclicHeap [0]), [])
  /\ (AdaptiveExecutorRepartitioning.FillTaskKey cyclicHeap 1
      ∉ keysOf cyclicHeap [0])
  /\ (AdaptiveExecutorRepartitioning.FillTaskKey cyclicHeap 2
      ∉ keysOf cyclicHeap [0])
  /\ fst (AdaptiveExecutorRepartitioning.ExecuteTasksInDependencyOrder
            (exampleEnv false [0; 1; 2] false) cyclicHeap [0; 1; 2] [0] [])
     = Ok tt
  /\ fst (AdaptiveExecutorRepartitioning.ExecuteTasksInDependencyOrder
            (exampleEnv false [0; 1; 2; 3] false) scenarioA [0; 1; 2; 3]
            [0] [])
     = Ok tt.
Proof.
  split_and!; try (vm_compute; reflexivity).
  all: intros (t & Ht & Hkey)%keysOf_inv;
    apply list_elem_of_singleton in Ht as ->; discriminate Hkey.
Qed.

(** ** Fetch commands *)

Section FetchCommands.

Import AdaptiveExecutorRepartitioning.

Variable env : Collaborators.

Lemma set_queryString_same h task s p :
  withoutQueryString (set_queryString h task s p) = withoutQueryString (h p).
Proof.
  unfold set_queryString, insert, fn_insert.
  by destruct (decide (task = p)) as [->|Hne].
Qed.

Lemma set_queryString_eq h task s :
  queryString (set_queryString h task s task) = s.
Proof.
  unfold set_queryString, insert, fn_insert.
  by destruct (decide (task = task)).
Qed.

Lemma set_queryString_ne h task s p :
  task <> p -> set_queryString h task s p = h p.
Proof.
  intros Hne. unfold set_queryString, insert, fn_insert.
  by destruct (decide (task = p)).
Qed.

Lemma withoutQueryString_fields t t' :
  withoutQueryString t = withoutQueryString t' ->
  jobId t = jobId t' /\ taskId t = taskId t' /\ taskType t = taskType t'
  /\ dependedTaskList t = dependedTaskList t'
  /\ taskPlacementList t = taskPlacementList t'
  /\ partitionId t = partitionId t' /\ upstreamTaskId t = upstreamTaskId t'.
Proof. unfold withoutQueryString. intros [=]. by split_and!. Qed.

(** The command depends on no query string. *)
Lemma MapFetchTaskQueryString_same h h' mapFetchTask mapTask :
  (forall p, withoutQueryString (h' p) = withoutQueryString (h p)) ->
  MapFetchTaskQueryString env h' mapFetchTask mapTask
  = MapFetchTaskQueryString env h mapFetchTask mapTask.
Proof.
  intros Hsame. unfold MapFetchTaskQueryString.
  destruct (withoutQueryString_fields _ _ (Hsame mapFetchTask))
    as (_ & _ & -> & _ & _ & -> & ->).
  destruct (withoutQueryString_fields _ _ (Hsame mapTask))
    as (-> & -> & -> & _ & -> & _ & _).
  reflexivity.
Qed.

Lemma MapFetchTaskQueryString_ok h mapFetchTask mapTask placement replicas :
  taskPlacementList (h mapTask) = placement :: replicas ->
  taskType (h mapFetchTask) = MAP_OUTPUT_FETCH_TASK ->
  taskType (h mapTask) = MAP_TASK ->
  MapFetchTaskQueryString env h mapFetchTask mapTask
  = Ok (fetchCommand env h mapFetchTask mapTask placement).
Proof.
  intros Hpl Hfetch Hmap. unfold MapFetchTaskQueryString, Assert.
  rewrite Hpl, Hfetch, Hmap. cbn.
  rewrite !bool_decide_eq_true_2 by done. cbn.
  by rewrite andb_false_r.
Qed.

(** With assertions compiled in, a wrong type stops the synthesis. *)
Lemma MapFetchTaskQueryString_mistyped h mapFetchTask mapTask placement
    replicas :
  USE_ASSERT_CHECKING env = true ->
  taskPlacementList (h mapTask) = placement :: replicas ->
  taskType (h mapFetchTask) <> MAP_OUTPUT_FETCH_TASK
  \/ taskType (h mapTask) <> MAP_TASK ->
  MapFetchTaskQueryString env h mapFetchTask mapTask = Err FailedAssertion.
Proof.
  intros Hassert Hpl Hbad. unfold MapFetchTaskQueryString, Assert.
  rewrite Hpl, Hassert. cbn.
  destruct (decide (taskType (h mapFetchTask) = MAP_OUTPUT_FETCH_TASK))
    as [Hf|Hf].
  - rewrite (bool_decide_eq_true_2 _ Hf). cbn.
    destruct Hbad as [|Hm]; [done|].
    by rewrite (bool_decide_eq_false_2 _ Hm).
  - by rewrite (bool_decide_eq_false_2 _ Hf).
Qed.

(** The synthesis over a list of well-formed fetch tasks: every task of
    the list ends with its command, and nothing but query strings is
    written. *)
Lemma PutMapOutputFetchQueryStrings_spec h0 mapOutputFetchTasks :
  Forall (hasProducerPlacement h0) mapOutputFetchTasks ->
  Forall (wellTyped h0) mapOutputFetchTasks ->
  forall h,
    (forall p, withoutQueryString (h p) = withoutQueryString (h0 p)) ->
    exists h',
      PutMapOutputFetchQueryStrings env h mapOutputFetchTasks = Ok h'
      /\ (forall p, withoutQueryString (h' p) = withoutQueryString (h0 p))
      /\ (forall p, p ∉ mapOutputFetchTasks ->
            queryString (h' p) = queryString (h p))
      /\ (forall task producer others placement replicas,
            task ∈ mapOutputFetchTasks ->
            dependedTaskList (h0 task) = producer :: others ->
            taskPlacementList (h0 producer) = placement :: replicas ->
            queryString (h' task)
            = fetchCommand env h0 task producer placement).
Proof.
  induction mapOutputFetchTasks as [|task rest IH];
    intros Hready Htyped h Hsame.
  - exists h. split_and!; auto.
    intros ? ? ? ? ? Hin; by apply elem_of_nil in Hin.
  - apply Forall_cons in Hready as [(P & others & pl & replicas & HP & Hpl) Hready].
    apply Forall_cons in Htyped as [[Hfetch Hmap] Htyped].
    cbn [PutMapOutputFetchQueryStrings].
    destruct (withoutQueryString_fields _ _ (Hsame task))
      as (_ & _ & _ & Hdeps & _).
    rewrite Hdeps, HP. cbn.
    rewrite (MapFetchTaskQueryString_same h0 h) by done.
    rewrite (MapFetchTaskQueryString_ok h0 task P pl replicas)
      by eauto. cbn.
    set (s := fetchCommand env h0 task P pl).
    destruct (IH Hready Htyped (set_queryString h task s))
      as (h' & Hrun & Hsame' & Hother & Hcmd).
    { intros p. by rewrite set_queryString_same. }
    exists h'. split_and!; auto.
    + intros p [Hne Hp]%not_elem_of_cons. rewrite Hother by done.
      by rewrite set_queryString_ne.
    + intros t P' others' pl' replicas' [->|Hin]%elem_of_cons HP' Hpl';
        [|by eapply Hcmd].
      destruct (decide (task ∈ rest)) as [Hin|Hout]; [by eapply Hcmd|].
      rewrite Hother by done. rewrite set_queryString_eq. subst s.
      rewrite HP in HP'. injection HP' as <- <-.
      rewrite Hpl in Hpl'. by injection Hpl' as <- <-.
Qed.

End FetchCommands.

(** C4.  In a list of well-formed fetch tasks handed to the synthesis, a
    task whose sole dependency is [producer], placed on [placement] first,
    gets as query string the template applied to the producer's job id and
    task id, its own partition and destination task, and the name and port
    of that first placement; the replicas after it play no part. *)
Theorem C4_fetch_command_uses_first_placement
    (env : Collaborators) (h : Heap) (mapOutputFetchTasks : list TaskPtr)
    (fetchTask producer : TaskPtr) (placement : ShardPlacement)
    (replicas : list ShardPlacement) :
  Forall (hasProducerPlacement h) mapOutputFetchTasks ->
  Forall (wellTyped h) mapOutputFetchTasks ->
  fetchTask ∈ mapOutputFetchTasks ->
  dependedTaskList (h fetchTask) = [producer] ->
  taskPlacementList (h producer) = placement :: replicas ->
  AdaptiveExecutorRepartitioning.MapFetchTaskQueryString env h fetchTask
    producer
  = Ok (MAP_OUTPUT_FETCH_COMMAND env
          (jobId (h producer)) (taskId (h producer))
          (partitionId (h fetchTask)) (upstreamTaskId (h fetchTask))
          (nodeName placement) (nodePort placement))
  /\ exists h',
       AdaptiveExecutorRepartitioning.PutMapOutputFetchQueryStrings env h
         mapOutputFetchTasks = Ok h'
       /\ queryString (h' fetchTask)
          = MAP_OUTPUT_FETCH_COMMAND env
              (jobId (h producer)) (taskId (h producer))
              (partitionId (h fetchTask)) (upstreamTaskId (h fetchTask))
              (nodeName placement) (nodePort placement)
       /\ forall p, withoutQueryString (h' p) = withoutQueryString (h p).
Proof.
  intros Hready Htyped Hin Hdeps Hpl. split.
  - destruct (proj1 (Forall_forall _ _) Htyped _ Hin) as [Hfetch Hmap].
    by eapply MapFetchTaskQueryString_ok; eauto.
  - destruct (PutMapOutputFetchQueryStrings_spec env h mapOutputFetchTasks
                Hready Htyped h) as (h' & Hrun & Hsame & _ & Hcmd); [done|].
    exists h'. split_and!; auto.
    by eapply Hcmd.
Qed.

(** The theorem of C4 on the fetch task of the repartition job. *)
Lemma C4_fetch_command_uses_first_placement_witness :
  AdaptiveExecutorRepartitioning.MapFetchTaskQueryString
    (exampleEnv true [0; 1; 2; 3] false) repartitionHeap 2 3
  = Ok "fetch(7,3,4,1,w1,5432)"
  /\ exists h',
       AdaptiveExecutorRepartitioning.PutMapOutputFetchQueryStrings
         (exampleEnv true [0; 1; 2; 3] false) repartitionHeap [2] = Ok h'
       /\ queryString (h' 2) = "fetch(7,3,4,1,w1,5432)"
       /\ forall p,
            withoutQueryString (h' p) = withoutQueryString (repartitionHeap p).
Proof.
  apply (C4_fetch_command_uses_first_placement
           (exampleEnv true [0; 1; 2; 3] false) repartitionHeap [2] 2 3
           (mkShardPlacement "w1" 5432) [mkShardPlacement "w2" 5433]).
  - repeat constructor.
    exists 3, [], (mkShardPlacement "w1" 5432), [mkShardPlacement "w2" 5433].
    split; reflexivity.
  - repeat constructor. intros producer others [= <- <-]. reflexivity.
  - by left.
  - reflexivity.
  - reflexivity.
Defined.

(** ** Malformed fetch tasks *)

Lemma PutMapOutputFetchQueryStrings_mistyped (env : Collaborators)
    (h0 : Heap) (mapOutputFetchTasks : list TaskPtr) :
  USE_ASSERT_CHECKING env = true ->
  Forall (hasProducerPlacement h0) mapOutputFetchTasks ->
  Exists (mistyped h0) mapOutputFetchTasks ->
  forall h,
    (forall p, withoutQueryString (h p) = withoutQueryString (h0 p)) ->
    AdaptiveExecutorRepartitioning.PutMapOutputFetchQueryStrings env h
      mapOutputFetchTasks = Err FailedAssertion.
Proof.
  intros Hassert.
  induction mapOutputFetchTasks as [|task rest IH]; intros Hready Hbad h Hsame.
  - by apply Exists_nil in Hbad.
  - apply Forall_cons in Hready
      as [(P & others & pl & replicas & HP & Hpl) Hready].
    cbn [AdaptiveExecutorRepartitioning.PutMapOutputFetchQueryStrings].
    destruct (withoutQueryString_fields _ _ (Hsame task))
      as (_ & _ & _ & Hdeps & _).
    rewrite Hdeps, HP. cbn.
    rewrite (MapFetchTaskQueryString_same env h0 h) by done.
    destruct (decide (taskType (h0 task) = MAP_OUTPUT_FETCH_TASK)) as [Hf|Hf];
      [destruct (decide (taskType (h0 P) = MAP_TASK)) as [Hm|Hm]|].
    + rewrite (MapFetchTaskQueryString_ok env h0 task P pl replicas) by done.
      cbn. apply IH; [done| |].
      * apply Exists_cons in Hbad as [[Hbad|Hbad]|Hbad]; [done| |done].
        destruct Hbad as (P' & others' & HP' & Hbad).
        rewrite HP in HP'. by injection HP' as <- <-.
      * intros p. by rewrite set_queryString_same.
    + by rewrite (MapFetchTaskQueryString_mistyped env h0 task P pl replicas)
        by auto.
    + by rewrite (MapFetchTaskQueryString_mistyped env h0 task P pl replicas)
        by auto.
Qed.

(** C8 as stated fails: in a build without assertions the fetch task 2,
    whose dependency 3 is a merge task and not a map task, gets its command
    and the run dispatches three batches. *)
Lemma C8_unchecked_build_runs_mistyped_fetch :
  USE_ASSERT_CHECKING (exampleEnv false [0; 1; 2; 3] false) = false
  /\ fst (AdaptiveExecutorRepartitioning.FillTaskGroups mistypedHeap
            [0; 1; 2; 3]) = [2]
  /\ dependedTaskList (mistypedHeap 2) = [3]
  /\ taskType (mistypedHeap 3) = MERGE_TASK
  /\ isOk (fst (AdaptiveExecutorRepartitioning.ExecuteDependedTasks
                  (exampleEnv false [0; 1; 2; 3] false) mistypedHeap [0] []))
     = true
  /\ snd (AdaptiveExecutorRepartitioning.ExecuteDependedTasks
            (exampleEnv false [0; 1; 2; 3] false) mistypedHeap [0] [])
     = [EvTrackerCleanupJobDirectories;
        EvSendCommandList "w1" 5432 "owner" ["create(7);"];
        EvSendCommandList "w2" 5433 "owner" ["create(7);"];
        EvExecuteTaskList [3]; EvExecuteTaskList [2]; EvExecuteTaskList [1]].
Proof. split_and!; vm_compute; reflexivity. Qed.

(** Nor is the number of dependencies of a fetch task checked, or their
    presence in the collection, with or without assertions: with the two
    dependencies 3 and 4 the command is made from the first, and a fetch
    task whose dependency 3 is left out of the collection stays undispatched
    in a run that returns normally. *)
Example unchecked_dependency_lists :
  isOk (fst (AdaptiveExecutorRepartitioning.ExecuteDependedTasks
               (exampleEnv true [0; 1; 2; 3; 4] false) twoProducersHeap [0]
               []))
  = true
  /\ snd (AdaptiveExecutorRepartitioning.ExecuteDependedTasks
            (exampleEnv true [0; 1; 2; 3; 4] false) twoProducersHeap [0] [])
     = [EvTrackerCleanupJobDirectories;
        EvSendCommandList "w1" 5432 "owner" ["create(7);"];
        EvSendCommandList "w2" 5433 "owner" ["create(7);"];
        EvExecuteTaskList [3; 4]; EvExecuteTaskList [2];
        EvExecuteTaskList [1]]
  /\ isOk (fst (AdaptiveExecutorRepartitioning.ExecuteDependedTasks
                  (exampleEnv true [0; 1; 2; 4] false) twoProducersHeap [0]
                  []))
     = true
  /\ snd (AdaptiveExecutorRepartitioning.ExecuteDependedTasks
            (exampleEnv true [0; 1; 2; 4] false) twoProducersHeap [0] [])
     = [EvTrackerCleanupJobDirectories;
        EvSendCommandList "w1" 5432 "owner" ["create(7);"];
        EvSendCommandList "w2" 5433 "owner" ["create(7);"];
        EvExecuteTaskList [4]].
Proof. split_and!; vm_compute; reflexivity. Qed.

(** C8, amended.  In a build with assertions, when the first dependency of
    every fetch task and the first placement of that dependency exist, and
    some fetch task is not an output-fetch task or its first dependency is
    not a map task, the synthesis stops at a failed assertion; in a run
    this happens before any command is sent and before any batch is
    dispatched. *)
Theorem C8_assertion_build_stops_at_mistyped_fetch
    (env : Collaborators) (h : Heap) (mapOutputFetchTasks : list TaskPtr)
    (topLevelTasks : list TaskPtr) (tr0 : Trace) :
  USE_ASSERT_CHECKING env = true ->
  Forall (hasProducerPlacement h) mapOutputFetchTasks ->
  Exists (mistyped h) mapOutputFetchTasks ->
  AdaptiveExecutorRepartitioning.PutMapOutputFetchQueryStrings env h
    mapOutputFetchTasks = Err FailedAssertion
  /\ (fst (AdaptiveExecutorRepartitioning.FillTaskGroups h
             (TaskAndExecutionList env h topLevelTasks))
      = mapOutputFetchTasks ->
      AdaptiveExecutorRepartitioning.ExecuteDependedTasks env h topLevelTasks
        tr0
      = (Err FailedAssertion, tr0 ++ [EvTrackerCleanupJobDirectories])).
Proof.
  intros Hassert Hready Hbad.
  assert (Hput : AdaptiveExecutorRepartitioning.PutMapOutputFetchQueryStrings
                   env h mapOutputFetchTasks = Err FailedAssertion)
    by (by eapply PutMapOutputFetchQueryStrings_mistyped).
  split; [exact Hput|].
  intros Hgroups.
  unfold AdaptiveExecutorRepartitioning.ExecuteDependedTasks.
  unfold mbind at 1. unfold M_bind, TrackerCleanupJobDirectories.
  destruct (AdaptiveExecutorRepartitioning.FillTaskGroups h
              (TaskAndExecutionList env h topLevelTasks))
    as [fetchTasks mergeTasks].
  cbn [fst] in Hgroups. subst fetchTasks.
  unfold mbind, M_bind, lift. by rewrite Hput.
Qed.

(** The theorem of C8 on the repartition job with a merge task in the
    place of the map task. *)
Lemma C8_assertion_build_stops_at_mistyped_fetch_witness :
  AdaptiveExecutorRepartitioning.PutMapOutputFetchQueryStrings
    (exampleEnv true [0; 1; 2; 3] false) mistypedHeap [2]
  = Err FailedAssertion
  /\ AdaptiveExecutorRepartitioning.ExecuteDependedTasks
       (exampleEnv true [0; 1; 2; 3] false) mistypedHeap [0] []
     = (Err FailedAssertion, [EvTrackerCleanupJobDirectories]).
Proof.
  destruct (C8_assertion_build_stops_at_mistyped_fetch
              (exampleEnv true [0; 1; 2; 3] false) mistypedHeap [2] [0] [])
    as [Hput Hrun].
  - reflexivity.
  - repeat constructor.
    exists 3, [], (mkShardPlacement "w1" 5432), [mkShardPlacement "w2" 5433].
    split; reflexivity.
  - left. right. exists 3, []. split; [reflexivity | discriminate].
  - split; [exact Hput | apply Hrun; reflexivity].
Defined.

(** ** Job ids and the commands made of them *)

Lemma string_append_assoc (s1 s2 s3 : string) :
  (s1 +:+ s2) +:+ s3 = s1 +:+ (s2 +:+ s3).
Proof.
  induction s1 as [|c s1 IH]; [reflexivity|].
  change (String c ((s1 +:+ s2) +:+ s3) = String c (s1 +:+ (s2 +:+ s3))).
  by f_equal.
Qed.

Lemma string_append_empty_r (s : string) : s +:+ EmptyString = s.
Proof.
  induction s as [|c s IH]; [reflexivity|].
  change (String c (s +:+ EmptyString) = String c s). by f_equal.
Qed.

Lemma filter_not_in_nil (l : list N) : filter (fun j => j ∉ @nil N) l = l.
Proof.
  induction l as [|x l IH]; [done|].
  rewrite filter_cons_True by apply not_elem_of_nil. by f_equal.
Qed.

Section JobIds.

Import RepartitionLogic.

Variable env : Collaborators.
Variable h : Heap.

Lemma DoesJobIDExist_true jobIds j :
  DoesJobIDExist jobIds j = true <-> j ∈ jobIds.
Proof.
  induction jobIds as [|cur rest IH]; simpl.
  - split; [done | intros H; by apply elem_of_nil in H].
  - destruct (N.eqb_spec cur j) as [->|Hne].
    + split; [intros _; by left | done].
    + rewrite IH. split; [intros H; by right|].
      intros [->|H]%elem_of_cons; done.
Qed.

Lemma DoesJobIDExist_false jobIds j :
  DoesJobIDExist jobIds j = false <-> j ∉ jobIds.
Proof.
  rewrite <- DoesJobIDExist_true. by destruct (DoesJobIDExist jobIds j).
Qed.

(** The loop of [CreateJobIds] started with the job ids [jobIds]. *)
Lemma CreateJobIds_from_spec cells jobIds :
  CreateJobIds_from h cells jobIds
  = jobIds
    ++ filter (fun j => j ∉ jobIds)
         (distinctFirstSeen ((fun t => jobId (h t)) <$> cells)).
Proof.
  revert jobIds; induction cells as [|task rest IH]; intros jobIds;
    cbn [CreateJobIds_from fmap list_fmap distinctFirstSeen].
  - by rewrite filter_nil, app_nil_r.
  - destruct (DoesJobIDExist jobIds (jobId (h task))) eqn:Hex; cbn [negb].
    + apply DoesJobIDExist_true in Hex.
      rewrite IH, filter_cons_False by (by intros Hn; apply Hn).
      f_equal. rewrite list_filter_filter. apply list_filter_iff.
      intros j. split; [|by intros [? _]].
      intros Hj. split; [done|]. by intros ->.
    + apply DoesJobIDExist_false in Hex.
      rewrite IH, filter_cons_True by done. unfold lappend.
      rewrite <- app_assoc. cbn [app]. do 2 f_equal.
      rewrite list_filter_filter. apply list_filter_iff.
      intros j. rewrite not_elem_of_app, list_elem_of_singleton. tauto.
Qed.

Lemma CreateJobIds_distinctFirstSeen mergeTasks :
  CreateJobIds h mergeTasks
  = distinctFirstSeen ((fun t => jobId (h t)) <$> mergeTasks).
Proof.
  unfold CreateJobIds. rewrite CreateJobIds_from_spec. cbn [app].
  apply filter_not_in_nil.
Qed.

Lemma distinctFirstSeen_elem l j : j ∈ distinctFirstSeen l <-> j ∈ l.
Proof.
  induction l as [|x l IH]; simpl; [done|].
  rewrite !elem_of_cons, list_elem_of_filter, IH.
  destruct (decide (j = x)); naive_solver.
Qed.

Lemma distinctFirstSeen_NoDup l : NoDup (distinctFirstSeen l).
Proof.
  induction l as [|x l IH]; simpl; constructor.
  - rewrite list_elem_of_filter. by intros [? _].
  - by apply NoDup_filter.
Qed.

Lemma GenerateCommand_from_spec templateCommand cells command :
  GenerateCommand_from templateCommand cells command
  = command +:+ statements templateCommand cells.
Proof.
  revert command; induction cells as [|j rest IH]; intros command; simpl.
  - by rewrite string_append_empty_r.
  - by rewrite IH, string_append_assoc.
Qed.

Lemma GenerateCommand_statements jobIds templateCommand :
  GenerateCommand jobIds templateCommand = statements templateCommand jobIds.
Proof. unfold GenerateCommand. by rewrite GenerateCommand_from_spec. Qed.

End JobIds.

(** C5.  The job ids of the provisioning are the distinct job ids of the
    merge tasks in first-seen order, each once, and the command is one
    create statement per job id of that list, in that order; merge tasks
    with the job ids 5, 5 and 7 give the statements for 5 and 7. *)
Theorem C5_one_create_statement_per_distinct_job
    (env : Collaborators) (h : Heap) (mergeTasks : list TaskPtr) :
  RepartitionLogic.CreateJobIds h mergeTasks
  = distinctFirstSeen ((fun t => jobId (h t)) <$> mergeTasks)
  /\ NoDup (RepartitionLogic.CreateJobIds h mergeTasks)
  /\ (forall j,
        j ∈ RepartitionLogic.CreateJobIds h mergeTasks
        <-> exists t, t ∈ mergeTasks /\ jobId (h t) = j)
  /\ RepartitionLogic.GenerateCreateSchemasCommand env
       (RepartitionLogic.CreateJobIds h mergeTasks)
     = statements (WORKER_CREATE_SCHEMA_QUERY env)
         (RepartitionLogic.CreateJobIds h mergeTasks)
  /\ RepartitionLogic.GenerateCreateSchemasCommand env
       (RepartitionLogic.CreateJobIds scenarioC [0; 1; 2])
     = WORKER_CREATE_SCHEMA_QUERY env 5
       +:+ WORKER_CREATE_SCHEMA_QUERY env 7 +:+ EmptyString.
Proof.
  rewrite !CreateJobIds_distinctFirstSeen.
  split_and!.
  - reflexivity.
  - apply distinctFirstSeen_NoDup.
  - intros j. rewrite distinctFirstSeen_elem, list_elem_of_fmap.
    split; intros (t & ? & ?); exists t; done.
  - apply GenerateCommand_statements.
  - unfold RepartitionLogic.GenerateCreateSchemasCommand.
    rewrite GenerateCommand_statements. reflexivity.
Qed.

(** With the templates of the examples the command of scenario C reads as
    follows. *)
Example scenarioC_command :
  RepartitionLogic.CreateJobIds scenarioC [0; 1; 2] = [5%N; 7%N]
  /\ RepartitionLogic.GenerateCreateSchemasCommand
       (exampleEnv false [] false)
       (RepartitionLogic.CreateJobIds scenarioC [0; 1; 2])
     = "create(5);create(7);".
Proof. split; vm_compute; reflexivity. Qed.

(** ** Broadcasts *)

Section Broadcasts.

Import RepartitionLogic.

Variable env : Collaborators.

(** A broadcast calls the workers in the order of the list, each once,
    and stops at the first call that fails. *)
Lemma SendCommandToAllWorkers_from_spec owner commandList workers tr :
  exists n,
    n <= length workers
    /\ snd (SendCommandToAllWorkers_from env owner commandList workers tr)
       = tr ++ sendEvents owner commandList (take n workers)
    /\ match fst (SendCommandToAllWorkers_from env owner commandList workers
                    tr) with
       | Ok _ => n = length workers
       | Err e => e = BroadcastFailed
       end.
Proof.
  revert tr; induction workers as [|w workers IH]; intros tr.
  - exists 0. cbn. by rewrite app_nil_r.
  - cbn [SendCommandToAllWorkers_from].
    unfold mbind, M_bind, SendCommandListToWorkerInSingleTransaction.
    destruct (sendSucceeds env tr (workerName w) (workerPort w) owner
                commandList).
    + destruct (IH (tr ++ [EvSendCommandList (workerName w) (workerPort w)
                             owner commandList]))
        as (n & Hn & Htr & Hres).
      exists (S n). split; [simpl; lia|]. split.
      * rewrite Htr, <- app_assoc. reflexivity.
      * destruct (fst (SendCommandToAllWorkers_from env owner commandList
                         workers _)); [simpl; lia | done].
    + exists 1. split; [simpl; lia|]. cbn. by rewrite take_0.
Qed.

Lemma SendCommandToAllWorkers_from_ok owner commandList workers tr :
  (forall tr' name port user commands,
     sendSucceeds env tr' name port user commands = true) ->
  SendCommandToAllWorkers_from env owner commandList workers tr
  = (Ok tt, tr ++ sendEvents owner commandList workers).
Proof.
  intros Hok. revert tr; induction workers as [|w workers IH]; intros tr.
  - cbn. by rewrite app_nil_r.
  - cbn [SendCommandToAllWorkers_from].
    unfold mbind, M_bind, SendCommandListToWorkerInSingleTransaction.
    rewrite Hok, IH, <- app_assoc. reflexivity.
Qed.

Lemma SendCommandToAllWorkers_from_Ok_inv owner commandList workers tr tr' :
  SendCommandToAllWorkers_from env owner commandList workers tr = (Ok tt, tr')
  -> tr' = tr ++ sendEvents owner commandList workers.
Proof.
  intros Hrun.
  destruct (SendCommandToAllWorkers_from_spec owner commandList workers tr)
    as (n & _ & Htr & Hres).
  rewrite Hrun in Htr, Hres. cbn [fst snd] in *. subst n.
  by rewrite firstn_all in Htr.
Qed.

End Broadcasts.

(** C10.  When no worker rejects the command, the provisioning phase sends
    to every node of the list of active readable nodes, once and in the
    order of the list, a command list that holds the one command built from
    the job ids; without merge tasks that command is the empty string and
    the calls are made all the same. *)
Theorem C10_provisioning_contacts_every_worker_once
    (env : Collaborators) (h : Heap) (mergeTasks : list TaskPtr)
    (tr : Trace) :
  (forall tr' name port user commands,
     sendSucceeds env tr' name port user commands = true) ->
  RepartitionLogic.CreateTemporarySchemas env h mergeTasks tr
  = (Ok (RepartitionLogic.CreateJobIds h mergeTasks),
     tr ++ sendEvents (CitusExtensionOwnerName env)
             [RepartitionLogic.GenerateCreateSchemasCommand env
                (RepartitionLogic.CreateJobIds h mergeTasks)]
             (ActiveReadableNodeList env tr))
  /\ RepartitionLogic.CreateTemporarySchemas env h [] tr
     = (Ok [],
        tr ++ sendEvents (CitusExtensionOwnerName env) [EmptyString]
                (ActiveReadableNodeList env tr)).
Proof.
  intros Hok.
  assert (Hrun : forall tasks,
    RepartitionLogic.CreateTemporarySchemas env h tasks tr
    = (Ok (RepartitionLogic.CreateJobIds h tasks),
       tr ++ sendEvents (CitusExtensionOwnerName env)
               [RepartitionLogic.GenerateCreateSchemasCommand env
                  (RepartitionLogic.CreateJobIds h tasks)]
               (ActiveReadableNodeList env tr))).
  { intros tasks.
    unfold RepartitionLogic.CreateTemporarySchemas,
      RepartitionLogic.CreateSchemasOnAllWorkers,
      RepartitionLogic.SendCommandToAllWorkers, mbind, M_bind.
    by rewrite SendCommandToAllWorkers_from_ok. }
  split; [apply Hrun | apply (Hrun [])].
Qed.

(** The theorem of C10 on the two workers of the examples. *)
Lemma C10_provisioning_contacts_every_worker_once_witness :
  RepartitionLogic.CreateTemporarySchemas (exampleEnv false [] false)
    scenarioC [0; 1; 2] []
  = (Ok [5%N; 7%N],
     [EvSendCommandList "w1" 5432 "owner" ["create(5);create(7);"];
      EvSendCommandList "w2" 5433 "owner" ["create(5);create(7);"]])
  /\ RepartitionLogic.CreateTemporarySchemas (exampleEnv false [] false)
       scenarioC [] []
     = (Ok [],
        [EvSendCommandList "w1" 5432 "owner" [EmptyString];
         EvSendCommandList "w2" 5433 "owner" [EmptyString]]).
Proof.
  apply (C10_provisioning_contacts_every_worker_once
           (exampleEnv false [] false) scenarioC [0; 1; 2] []).
  reflexivity.
Defined.

(** ** The run of repartition_logic.c *)

(** C6.  When a modification was made earlier in the transaction, the run
    ends at the guard with its error and the trace it started with: no
    command was sent and no batch dispatched. *)
Theorem C6_guard_fails_before_any_broadcast
    (env : Collaborators) (h : Heap) (topLevelTasks : list TaskPtr)
    (tr0 : Trace) :
  modificationsDone env = true ->
  RepartitionLogic.ExecuteDependedTasks env h topLevelTasks tr0
  = (Err ModificationsDone, tr0).
Proof.
  intros Hmod. unfold RepartitionLogic.ExecuteDependedTasks, mbind, M_bind,
    EnsureNoModificationsHaveBeenDone.
  by rewrite Hmod.
Qed.

(** The theorem of C6 on the repartition job. *)
Lemma C6_guard_fails_before_any_broadcast_witness :
  RepartitionLogic.ExecuteDependedTasks (exampleEnv false [0; 1; 2; 3] true)
    repartitionHeap [0] []
  = (Err ModificationsDone, []).
Proof.
  apply C6_guard_fails_before_any_broadcast. reflexivity.
Defined.

Lemma bind_Ok_inv {A B} (c : M A) (k : A -> M B) tr b tr' :
  (c ≫= k) tr = (Ok b, tr') ->
  exists a tr1, c tr = (Ok a, tr1) /\ k a tr1 = (Ok b, tr').
Proof.
  unfold mbind, M_bind. destruct (c tr) as [[a|e] tr1]; [eauto | done].
Qed.
(** C7.  A run of [ExecuteDependedTasks] reaches [RemoveTempJobDirs] only
    through a guard, a provisioning and a scheduler that all returned
    normally.  When the guard or the provisioning fails, that failure is
    the outcome of the run and the calls of the run are the create
    commands sent up to the failure: no batch is dispatched and nothing is
    sent for the reclamation.  After the provisioning has returned its job
    ids, the run is the scheduler followed, when the scheduler returns
    normally and only then, by [RemoveTempJobDirs] on those very job ids;
    an error of the scheduler is the outcome of the run, whose calls are
    then the create commands and the batches dispatched.  Whatever remote
    call of the run fails, a command sent to a worker or a dispatch, is the
    last call of the run, which ends with the error of that call; for a
    dispatch that is the error of the remote execution: no later batch is
    dispatched and nothing is sent for the reclamation.  A run that returns
    normally has sent the create command of the job ids, dispatched its
    batches, and then sent to the nodes listed at that moment the delete
    command of the same job ids. *)
Theorem C7_reclamation_only_after_a_successful_schedule
    (env : Collaborators) (h : Heap) (topLevelTasks : list TaskPtr)
    (tr0 : Trace) :
  (forall e tr1,
     (EnsureNoModificationsHaveBeenDone env;;
      RepartitionLogic.CreateTemporarySchemas env h
        (RepartitionLogic.FillTaskGroups h
           (TaskAndExecutionList env h topLevelTasks))) tr0
     = (Err e, tr1) ->
     RepartitionLogic.ExecuteDependedTasks env h topLevelTasks tr0
     = (Err e, tr1)
     /\ exists n,
          n <= length (ActiveReadableNodeList env tr0)
          /\ tr1
             = tr0 ++ sendEvents (CitusExtensionOwnerName env)
                        [RepartitionLogic.GenerateCreateSchemasCommand env
                           (RepartitionLogic.CreateJobIds h
                              (RepartitionLogic.FillTaskGroups h
                                 (TaskAndExecutionList env h
                                    topLevelTasks)))]
                        (take n (ActiveReadableNodeList env tr0)))
  /\ (forall jobIds tr1,
     (EnsureNoModificationsHaveBeenDone env;;
      RepartitionLogic.CreateTemporarySchemas env h
        (RepartitionLogic.FillTaskGroups h
           (TaskAndExecutionList env h topLevelTasks))) tr0
     = (Ok jobIds, tr1) ->
     match AdaptiveExecutorRepartitioning.ExecuteTasksInDependencyOrder env h
             (TaskAndExecutionList env h topLevelTasks) topLevelTasks tr1 with
     | (Ok _, tr2) =>
         RepartitionLogic.ExecuteDependedTasks env h topLevelTasks tr0
         = RepartitionLogic.RemoveTempJobDirs env jobIds tr2
     | (Err e, tr2) =>
         RepartitionLogic.ExecuteDependedTasks env h topLevelTasks tr0
         = (Err e, tr2)
     end)
  /\ (forall jobIds tr1 e,
     (EnsureNoModificationsHaveBeenDone env;;
      RepartitionLogic.CreateTemporarySchemas env h
        (RepartitionLogic.FillTaskGroups h
           (TaskAndExecutionList env h topLevelTasks))) tr0
     = (Ok jobIds, tr1) ->
     fst (AdaptiveExecutorRepartitioning.ExecuteTasksInDependencyOrder env h
            (TaskAndExecutionList env h topLevelTasks) topLevelTasks tr1)
     = Err e ->
     exists batches,
       RepartitionLogic.ExecuteDependedTasks env h topLevelTasks tr0
       = (Err e,
          (tr0 ++ sendEvents (CitusExtensionOwnerName env)
                    [RepartitionLogic.GenerateCreateSchemasCommand env
                       (RepartitionLogic.CreateJobIds h
                          (RepartitionLogic.FillTaskGroups h
                             (TaskAndExecutionList env h topLevelTasks)))]
                    (ActiveReadableNodeList env tr0))
          ++ (EvExecuteTaskList <$> batches)))
  /\ (forall pre ev post,
     snd (RepartitionLogic.ExecuteDependedTasks env h topLevelTasks tr0)
       = pre ++ ev :: post ->
     length tr0 <= length pre ->
     succeeded env pre ev = false ->
     post = []
     /\ fst (RepartitionLogic.ExecuteDependedTasks env h topLevelTasks tr0)
        = Err (failureOf ev))
  /\ (forall pre batch post,
     snd (RepartitionLogic.ExecuteDependedTasks env h topLevelTasks tr0)
       = pre ++ EvExecuteTaskList batch :: post ->
     length tr0 <= length pre ->
     executeSucceeds env pre batch = false ->
     post = []
     /\ fst (RepartitionLogic.ExecuteDependedTasks env h topLevelTasks tr0)
        = Err RemoteExecutionFailed)
  /\ (fst (RepartitionLogic.ExecuteDependedTasks env h topLevelTasks tr0)
      = Ok tt ->
      exists batches,
        let jobIds :=
          RepartitionLogic.CreateJobIds h
            (RepartitionLogic.FillTaskGroups h
               (TaskAndExecutionList env h topLevelTasks)) in
        let tr1 :=
          tr0 ++ sendEvents (CitusExtensionOwnerName env)
                   [RepartitionLogic.GenerateCreateSchemasCommand env jobIds]
                   (ActiveReadableNodeList env tr0) in
        let tr2 := tr1 ++ (EvExecuteTaskList <$> batches) in
        snd (RepartitionLogic.ExecuteDependedTasks env h topLevelTasks tr0)
        = tr2 ++ sendEvents (CitusExtensionOwnerName env)
                   [RepartitionLogic.GenerateDeleteJobsCommand env jobIds]
                   (ActiveReadableNodeList env tr2)).
Proof.
  assert (Hthen : forall jobIds tr1,
    (EnsureNoModificationsHaveBeenDone env;;
     RepartitionLogic.CreateTemporarySchemas env h
       (RepartitionLogic.FillTaskGroups h
          (TaskAndExecutionList env h topLevelTasks))) tr0
    = (Ok jobIds, tr1) ->
    RepartitionLogic.ExecuteDependedTasks env h topLevelTasks tr0
    = (AdaptiveExecutorRepartitioning.ExecuteTasksInDependencyOrder env h
         (TaskAndExecutionList env h topLevelTasks) topLevelTasks
       ≫= fun _ => RepartitionLogic.RemoveTempJobDirs env jobIds) tr1).
  { intros jobIds tr1 Hprov.
    apply bind_Ok_inv in Hprov as ([] & tr' & Hguard & Hprov).
    unfold RepartitionLogic.ExecuteDependedTasks.
    unfold mbind at 1. unfold M_bind at 1. rewrite Hguard.
    unfold mbind at 1. unfold M_bind at 1. rewrite Hprov. reflexivity. }
  assert (Hlast : forall pre ev post,
    snd (RepartitionLogic.ExecuteDependedTasks env h topLevelTasks tr0)
      = pre ++ ev :: post ->
    length tr0 <= length pre ->
    succeeded env pre ev = false ->
    post = []
    /\ fst (RepartitionLogic.ExecuteDependedTasks env h topLevelTasks tr0)
       = Err (failureOf ev)).
  { intros pre ev post Htr Hlen Hfail.
    destruct (sound_ExecuteDependedTasks env h topLevelTasks tr0)
      as [Hext|(tr1 & ev' & Htr1 & Hext & Hev & Hres)].
    + pose proof (extends_succeeded env _ _ Hext _ _ _ Htr Hlen) as Hok.
      congruence.
    + rewrite Htr in Htr1.
      destruct post as [|x post _] using rev_ind.
      * apply app_inj_tail in Htr1 as [-> <-]. by rewrite Hres.
      * rewrite app_comm_cons, app_assoc in Htr1.
        apply app_inj_tail in Htr1 as [<- _].
        pose proof (extends_succeeded env _ _ Hext _ _ _ eq_refl Hlen) as Hok.
        congruence. }
  split_and!.
  - intros e tr1.
    unfold RepartitionLogic.ExecuteDependedTasks,
      EnsureNoModificationsHaveBeenDone.
    destruct (modificationsDone env).
    { intros [= <- <-]. split; [reflexivity|].
      exists 0. split; [lia|]. by rewrite take_0, app_nil_r. }
    unfold RepartitionLogic.CreateTemporarySchemas,
      RepartitionLogic.CreateSchemasOnAllWorkers,
      RepartitionLogic.SendCommandToAllWorkers.
    unfold mbind, M_bind, mret, M_ret.
    destruct (SendCommandToAllWorkers_from_spec env
                (CitusExtensionOwnerName env)
                [RepartitionLogic.GenerateCreateSchemasCommand env
                   (RepartitionLogic.CreateJobIds h
                      (RepartitionLogic.FillTaskGroups h
                         (TaskAndExecutionList env h topLevelTasks)))]
                (ActiveReadableNodeList env tr0) tr0)
      as (n & Hn & Htr & _).
    destruct (RepartitionLogic.SendCommandToAllWorkers_from env _ _ _ tr0)
      as [[[]|e'] tr'] eqn:Hsend; [done|].
    intros [= <- <-]. split; [reflexivity|].
    exists n. by split.
  - intros jobIds tr1 Hprov.
    rewrite (Hthen _ _ Hprov). unfold mbind, M_bind.
    by destruct (AdaptiveExecutorRepartitioning.ExecuteTasksInDependencyOrder
                   env h (TaskAndExecutionList env h topLevelTasks)
                   topLevelTasks tr1) as [[[]|e] tr2].
  - intros jobIds tr1 e Hprov Hsched.
    rewrite (Hthen _ _ Hprov).
    apply bind_Ok_inv in Hprov as ([] & tr' & Hguard & Hprov).
    unfold EnsureNoModificationsHaveBeenDone in Hguard.
    destruct (modificationsDone env); [done|]. injection Hguard as <-.
    unfold RepartitionLogic.CreateTemporarySchemas,
      RepartitionLogic.CreateSchemasOnAllWorkers in Hprov.
    apply bind_Ok_inv in Hprov as ([] & tr1' & Hsend & Hret).
    injection Hret as <- <-.
    apply SendCommandToAllWorkers_from_Ok_inv in Hsend. subst tr1'.
    destruct (scheduler_dispatches_only env h
                (TaskAndExecutionList env h topLevelTasks) topLevelTasks
                (tr0 ++ sendEvents (CitusExtensionOwnerName env)
                   [RepartitionLogic.GenerateCreateSchemasCommand env
                      (RepartitionLogic.CreateJobIds h
                         (RepartitionLogic.FillTaskGroups h
                            (TaskAndExecutionList env h topLevelTasks)))]
                   (ActiveReadableNodeList env tr0)))
      as (batches & Htr2).
    exists batches. unfold mbind, M_bind.
    destruct (AdaptiveExecutorRepartitioning.ExecuteTasksInDependencyOrder
                env h (TaskAndExecutionList env h topLevelTasks)
                topLevelTasks _) as [[[]|e'] tr2]; cbn [fst snd] in *;
      [done|].
    congruence.
  - exact Hlast.
  - intros pre batch post Htr Hlen Hfail.
    exact (Hlast pre (EvExecuteTaskList batch) post Htr Hlen Hfail).
  - intros Hok.
    destruct (RepartitionLogic.ExecuteDependedTasks env h topLevelTasks tr0)
      as [r tr] eqn:Hrun.
    cbn [fst snd] in *. subst r.
    unfold RepartitionLogic.ExecuteDependedTasks in Hrun.
    apply bind_Ok_inv in Hrun as ([] & tr' & Hguard & Hrun).
    unfold EnsureNoModificationsHaveBeenDone in Hguard.
    destruct (modificationsDone env); [done|]. injection Hguard as <-.
    apply bind_Ok_inv in Hrun as (jobIds & tr1 & Hcreate & Hrun).
    unfold RepartitionLogic.CreateTemporarySchemas,
      RepartitionLogic.CreateSchemasOnAllWorkers in Hcreate.
    apply bind_Ok_inv in Hcreate as ([] & tr1' & Hsend & Hret).
    injection Hret as <- <-.
    apply SendCommandToAllWorkers_from_Ok_inv in Hsend. subst tr1'.
    apply bind_Ok_inv in Hrun as ([] & tr2 & Hsched & Hrun).
    destruct (scheduler_dispatches_only env h
                (TaskAndExecutionList env h topLevelTasks) topLevelTasks
                (tr0 ++ sendEvents (CitusExtensionOwnerName env)
                   [RepartitionLogic.GenerateCreateSchemasCommand env
                      (RepartitionLogic.CreateJobIds h
                         (RepartitionLogic.FillTaskGroups h
                            (TaskAndExecutionList env h topLevelTasks)))]
                   (ActiveReadableNodeList env tr0)))
      as (batches & Htr2).
    rewrite Hsched in Htr2. cbn [snd] in Htr2. subst tr2.
    exists batches. cbn zeta.
    by apply SendCommandToAllWorkers_from_Ok_inv in Hrun.
Qed.

(** The theorem of C7 on the repartition job: a run whose second worker
    rejects the create command, a run whose first dispatch fails, and a run
    without failure. *)
Lemma C7_reclamation_only_after_a_successful_schedule_witness :
  (RepartitionLogic.ExecuteDependedTasks (rejectingEnv [0; 1; 2; 3])
     repartitionHeap [0] []
   = (Err BroadcastFailed,
      [EvSendCommandList "w1" 5432 "owner" ["create(7);"];
       EvSendCommandList "w2" 5433 "owner" ["create(7);"]])
   /\ exists n,
        n <= 2
        /\ [EvSendCommandList "w1" 5432 "owner" ["create(7);"];
            EvSendCommandList "w2" 5433 "owner" ["create(7);"]]
           = [] ++ sendEvents "owner" ["create(7);"]
                     (take n [mkWorkerNode "w1" 5432;
                              mkWorkerNode "w2" 5433]))
  /\ RepartitionLogic.ExecuteDependedTasks
       (exampleEnv false [0; 1; 2; 3] false) repartitionHeap [0] []
     = RepartitionLogic.RemoveTempJobDirs (exampleEnv false [0; 1; 2; 3] false)
         [7%N]
         [EvSendCommandList "w1" 5432 "owner" ["create(7);"];
          EvSendCommandList "w2" 5433 "owner" ["create(7);"];
          EvExecuteTaskList [3]; EvExecuteTaskList [2]; EvExecuteTaskList [1]]
  /\ (exists batches,
        RepartitionLogic.ExecuteDependedTasks
          (exampleEnvWith false [0; 1; 2; 3] false (fun _ _ => false))
          repartitionHeap [0] []
        = (Err RemoteExecutionFailed,
           ([] ++ [EvSendCommandList "w1" 5432 "owner" ["create(7);"];
                   EvSendCommandList "w2" 5433 "owner" ["create(7);"]])
           ++ (EvExecuteTaskList <$> batches)))
  /\ (@nil Event = []
      /\ fst (RepartitionLogic.ExecuteDependedTasks
                (rejectingEnv [0; 1; 2; 3]) repartitionHeap [0] [])
         = Err BroadcastFailed)
  /\ (@nil Event = []
      /\ fst (RepartitionLogic.ExecuteDependedTasks
                (exampleEnvWith false [0; 1; 2; 3] false (fun _ _ => false))
                repartitionHeap [0] [])
         = Err RemoteExecutionFailed)
  /\ exists batches,
       snd (RepartitionLogic.ExecuteDependedTasks
              (exampleEnv false [0; 1; 2; 3] false) repartitionHeap [0] [])
       = ([EvSendCommandList "w1" 5432 "owner" ["create(7);"];
           EvSendCommandList "w2" 5433 "owner" ["create(7);"]]
          ++ (EvExecuteTaskList <$> batches))
         ++ [EvSendCommandList "w1" 5432 "owner" ["delete(7);"];
             EvSendCommandList "w2" 5433 "owner" ["delete(7);"]].
Proof.
  destruct (C7_reclamation_only_after_a_successful_schedule
              (rejectingEnv [0; 1; 2; 3]) repartitionHeap [0] [])
    as (Hrejected & _ & _ & Hlast & _).
  destruct (C7_reclamation_only_after_a_successful_schedule
              (exampleEnvWith false [0; 1; 2; 3] false (fun _ _ => false))
              repartitionHeap [0] []) as (_ & _ & Hstop & _ & Hfail & _).
  destruct (C7_reclamation_only_after_a_successful_schedule
              (exampleEnv false [0; 1; 2; 3] false) repartitionHeap [0] [])
    as (_ & Hthen & _ & _ & _ & Hok).
  split; [|split; [|split; [|split; [|split]]]].
  - exact (Hrejected BroadcastFailed
             [EvSendCommandList "w1" 5432 "owner" ["create(7);"];
              EvSendCommandList "w2" 5433 "owner" ["create(7);"]]
             eq_refl).
  - exact (Hthen [7%N]
             [EvSendCommandList "w1" 5432 "owner" ["create(7);"];
              EvSendCommandList "w2" 5433 "owner" ["create(7);"]]
             eq_refl).
  - exact (Hstop [7%N]
             [EvSendCommandList "w1" 5432 "owner" ["create(7);"];
              EvSendCommandList "w2" 5433 "owner" ["create(7);"]]
             RemoteExecutionFailed eq_refl eq_refl).
  - apply (Hlast [EvSendCommandList "w1" 5432 "owner" ["create(7);"]]
             (EvSendCommandList "w2" 5433 "owner" ["create(7);"]) []).
    + vm_compute. reflexivity.
    + simpl. lia.
    + reflexivity.
  - apply (Hfail [EvSendCommandList "w1" 5432 "owner" ["create(7);"];
                  EvSendCommandList "w2" 5433 "owner" ["create(7);"]]
             [3] []).
    + vm_compute. reflexivity.
    + simpl. lia.
    + reflexivity.
  - apply Hok. vm_compute. reflexivity.
Defined.

(** * Further properties of the two files *)

(** ** Task groups *)

Lemma FillTaskGroups_from_adaptive_filter (h : Heap) (cells : list TaskPtr)
    (outputFetchTasks mergeTasks : list TaskPtr) :
  AdaptiveExecutorRepartitioning.FillTaskGroups_from h cells outputFetchTasks
    mergeTasks
  = (outputFetchTasks
       ++ filter (fun t => taskType (h t) = MAP_OUTPUT_FETCH_TASK) cells,
     mergeTasks ++ filter (fun t => taskType (h t) = MERGE_TASK) cells).
Proof.
  revert outputFetchTasks mergeTasks.
  induction cells as [|task rest IH]; intros fetch merge;
    cbn [AdaptiveExecutorRepartitioning.FillTaskGroups_from].
  - by rewrite !filter_nil, !app_nil_r.
  - rewrite IH, !filter_cons. unfold lappend.
    destruct (decide (taskType (h task) = MAP_OUTPUT_FETCH_TASK)),
      (decide (taskType (h task) = MERGE_TASK));
      by rewrite <- ?app_assoc.
Qed.

(** X1.  The two groups of [FillTaskGroups] are the output-fetch tasks and
    the merge tasks of the list, each in the order of the list; no task is
    in both. *)
Theorem X1_FillTaskGroups_filters_by_type (h : Heap) (allTasks : list TaskPtr) :
  AdaptiveExecutorRepartitioning.FillTaskGroups h allTasks
  = (filter (fun t => taskType (h t) = MAP_OUTPUT_FETCH_TASK) allTasks,
     filter (fun t => taskType (h t) = MERGE_TASK) allTasks)
  /\ Forall (fun t =>
       t ∉ snd (AdaptiveExecutorRepartitioning.FillTaskGroups h allTasks))
       (fst (AdaptiveExecutorRepartitioning.FillTaskGroups h allTasks)).
Proof.
  assert (Heq : AdaptiveExecutorRepartitioning.FillTaskGroups h allTasks
    = (filter (fun t => taskType (h t) = MAP_OUTPUT_FETCH_TASK) allTasks,
       filter (fun t => taskType (h t) = MERGE_TASK) allTasks))
    by (unfold AdaptiveExecutorRepartitioning.FillTaskGroups;
        by rewrite FillTaskGroups_from_adaptive_filter).
  split; [exact Heq|]. rewrite Heq. cbn [fst snd].
  apply Forall_forall. intros t [Hfetch _]%list_elem_of_filter
    [Hmerge _]%list_elem_of_filter. congruence.
Qed.

Lemma FillTaskGroups_from_merge_filter (h : Heap) (cells : list TaskPtr)
    (mergeTasks : list TaskPtr) :
  RepartitionLogic.FillTaskGroups_from h cells mergeTasks
  = mergeTasks ++ filter (fun t => taskType (h t) = MERGE_TASK) cells.
Proof.
  revert mergeTasks.
  induction cells as [|task rest IH]; intros merge;
    cbn [RepartitionLogic.FillTaskGroups_from].
  - by rewrite filter_nil, app_nil_r.
  - rewrite filter_cons. unfold lappend.
    destruct (decide (taskType (h task) = MERGE_TASK));
      rewrite IH; by rewrite <- ?app_assoc.
Qed.

(** X2.  [FillTaskGroups] of repartition_logic.c keeps the merge tasks of
    the list, in the order of the list, and it is the merge group of the
    function of the same name in adaptive_executor_repartioning.c. *)
Theorem X2_FillTaskGroups_keeps_merge_tasks (h : Heap)
    (allTasks : list TaskPtr) :
  RepartitionLogic.FillTaskGroups h allTasks
  = filter (fun t => taskType (h t) = MERGE_TASK) allTasks
  /\ RepartitionLogic.FillTaskGroups h allTasks
     = snd (AdaptiveExecutorRepartitioning.FillTaskGroups h allTasks).
Proof.
  unfold RepartitionLogic.FillTaskGroups,
    AdaptiveExecutorRepartitioning.FillTaskGroups.
  by rewrite FillTaskGroups_from_merge_filter,
    FillTaskGroups_from_adaptive_filter.
Qed.

(** ** The table of completed tasks *)

(** X3.  [TaskHashCompare] returns 0 on equal keys and on no others.
    [TaskHash] reads the task id and the low 32 bits of the job id only:
    keys that agree on these have the same hash, whatever [hash_uint32] and
    [hash_combine] are, so that the keys the comparison holds equal are
    hashed alike. *)
Theorem X3_TaskHashCompare_is_equality_and_TaskHash_respects_it
    (hash_uint32 : N -> N) (hash_combine : N -> N -> N)
    (key1 key2 : TaskHashKey) :
  (TaskHashCompare key1 key2 = false <-> key1 = key2)
  /\ (key_taskId key1 = key_taskId key2 ->
      (key_jobId key1 mod 2 ^ 32 = key_jobId key2 mod 2 ^ 32)%N ->
      TaskHash hash_uint32 hash_combine key1
      = TaskHash hash_uint32 hash_combine key2).
Proof.
  split; [apply TaskHashCompare_eq|].
  intros Htask Hjob. unfold TaskHash. by rewrite Htask, Hjob.
Qed.

(** Two job ids that differ by 2^32: one bucket, two entries. *)
Example TaskHash_collision (hash_uint32 : N -> N) (hash_combine : N -> N -> N) :
  TaskHash hash_uint32 hash_combine (mkTaskHashKey 1 7)
  = TaskHash hash_uint32 hash_combine (mkTaskHashKey (2 ^ 32 + 1) 7)
  /\ TaskHashCompare (mkTaskHashKey 1 7) (mkTaskHashKey (2 ^ 32 + 1) 7) = true.
Proof. split; reflexivity. Qed.

(** X4.  [IsTaskAlreadyCompleted] is no pure test: whatever it answers, the
    identity of the task is in the table afterwards, nothing has left the
    table, and the same question asked again is answered with true. *)
Theorem X4_IsTaskAlreadyCompleted_enters_the_task
    (h : Heap) (task : TaskPtr) (completedTasks : HTAB) :
  snd (AdaptiveExecutorRepartitioning.IsTaskAlreadyCompleted h task
         completedTasks)
  = bool_decide (AdaptiveExecutorRepartitioning.FillTaskKey h task
                 ∈ completedTasks)
  /\ AdaptiveExecutorRepartitioning.FillTaskKey h task
     ∈ fst (AdaptiveExecutorRepartitioning.IsTaskAlreadyCompleted h task
              completedTasks)
  /\ completedTasks
     ⊆ fst (AdaptiveExecutorRepartitioning.IsTaskAlreadyCompleted h task
              completedTasks)
  /\ snd (AdaptiveExecutorRepartitioning.IsTaskAlreadyCompleted h task
            (fst (AdaptiveExecutorRepartitioning.IsTaskAlreadyCompleted h
                    task completedTasks)))
     = true.
Proof.
  unfold AdaptiveExecutorRepartitioning.IsTaskAlreadyCompleted, hash_search.
  cbn [fst snd]. split_and!.
  - reflexivity.
  - apply elem_of_union_l. by apply elem_of_singleton.
  - apply union_subseteq_r.
  - apply bool_decide_eq_true. apply elem_of_union_l.
    by apply elem_of_singleton.
Qed.

(** X5.  [IsAllDependencyCompleted] answers true exactly when the identity
    of every entry of the [dependedTaskList] is in the table; so it does
    for a task without dependencies, in a larger table once it did in a
    smaller one, and after [AddCompletedTasks] of the dependencies. *)
Theorem X5_IsAllDependencyCompleted_reads_the_table
    (h : Heap) (task : TaskPtr) (completedTasks : HTAB) :
  (AdaptiveExecutorRepartitioning.IsAllDependencyCompleted h task
     completedTasks = true
   <-> forall d, d ∈ dependedTaskList (h task) ->
         AdaptiveExecutorRepartitioning.FillTaskKey h d ∈ completedTasks)
  /\ (dependedTaskList (h task) = [] ->
      AdaptiveExecutorRepartitioning.IsAllDependencyCompleted h task
        completedTasks = true)
  /\ (forall larger,
        completedTasks ⊆ larger ->
        AdaptiveExecutorRepartitioning.IsAllDependencyCompleted h task
          completedTasks = true ->
        AdaptiveExecutorRepartitioning.IsAllDependencyCompleted h task larger
        = true)
  /\ AdaptiveExecutorRepartitioning.IsAllDependencyCompleted h task
       (AdaptiveExecutorRepartitioning.AddCompletedTasks h
          (dependedTaskList (h task)) completedTasks)
     = true.
Proof.
  split_and!.
  - apply IsAllDependencyCompleted_true.
  - intros Hnil. apply IsAllDependencyCompleted_true. rewrite Hnil.
    intros d Hd. by apply elem_of_nil in Hd.
  - intros larger Hsub. rewrite !IsAllDependencyCompleted_true.
    intros Hall d Hd. apply Hsub. by apply Hall.
  - apply IsAllDependencyCompleted_true. intros d Hd.
    rewrite AddCompletedTasks_keys. apply elem_of_union_l.
    by apply keysOf_elem.
Qed.

(** X6.  [AddCompletedTasks] adds the identities of its tasks to the table
    and removes none.  Called on the batch of a scan and the table that the
    scan left, as the loop does after [ExecuteTaskList], it changes
    nothing: the scan has entered the batch already. *)
Theorem X6_AddCompletedTasks_after_the_scan_adds_nothing
    (h : Heap) (tasks allTasks : list TaskPtr) (completedTasks : HTAB) :
  (forall key,
     key ∈ AdaptiveExecutorRepartitioning.AddCompletedTasks h tasks
             completedTasks
     <-> key ∈ completedTasks
         \/ exists t, t ∈ tasks
                      /\ AdaptiveExecutorRepartitioning.FillTaskKey h t = key)
  /\ AdaptiveExecutorRepartitioning.AddCompletedTasks h
       (snd (AdaptiveExecutorRepartitioning.scanTasks h allTasks
               completedTasks []))
       (fst (AdaptiveExecutorRepartitioning.scanTasks h allTasks
               completedTasks []))
     = fst (AdaptiveExecutorRepartitioning.scanTasks h allTasks
              completedTasks []).
Proof.
  split.
  - intros key. rewrite AddCompletedTasks_keys, elem_of_union. split.
    + intros [(t & Ht & Hk)%keysOf_inv|Hk]; [right; eauto | by left].
    + intros [Hk|(t & Ht & <-)]; [by right | left; by apply keysOf_elem].
  - destruct (scanTasks_spec h allTasks completedTasks [])
      as (new & Heq & _).
    rewrite Heq. cbn [fst snd app]. rewrite AddCompletedTasks_keys.
    generalize (keysOf h new). intros X. apply leibniz_equiv. set_solver.
Qed.

(** ** The loop of the scheduler *)

Section LoopBudget.

Import AdaptiveExecutorRepartitioning.

Variable env : Collaborators.
Variable h : Heap.

(** A loop that ended within its budget ends alike with a larger one. *)
Lemma drain_one_more budget allTasks completedTasks tr :
  fst (drain env budget h allTasks completedTasks tr) <> Err LoopBudget ->
  drain env (S budget) h allTasks completedTasks tr
  = drain env budget h allTasks completedTasks tr.
Proof.
  revert completedTasks tr.
  induction budget as [|budget IH]; intros c tr Hend; [done|].
  cbn [drain] in Hend. remember (S budget) as b eqn:Hb.
  cbn [drain]. subst b. cbn [drain].
  destruct (scanTasks h allTasks c []) as [c1 cur].
  destruct (Nat.eqb (list_length cur) 0); [done|].
  unfold mbind, M_bind, ExecuteTaskList in *.
  destruct (executeSucceeds env tr cur); [|done].
  by apply IH.
Qed.

Lemma drain_more budget extra allTasks completedTasks tr :
  fst (drain env budget h allTasks completedTasks tr) <> Err LoopBudget ->
  drain env (budget + extra) h allTasks completedTasks tr
  = drain env budget h allTasks completedTasks tr.
Proof.
  intros Hend. induction extra as [|extra IH].
  - by rewrite Nat.add_0_r.
  - rewrite Nat.add_succ_r, drain_one_more; [exact IH|]. by rewrite IH.
Qed.

End LoopBudget.

(** X7.  The loop of [ExecuteTasksInDependencyOrder] ends on every input:
    it dispatches at most as many batches as [allTasks] has tasks, so the
    bound of the model on its iterations is never reached, and any larger
    bound gives the same run. *)
Theorem X7_scheduler_loop_terminates
    (env : Collaborators) (h : Heap) (allTasks topLevelTasks : list TaskPtr)
    (tr0 : Trace) (extra : nat) :
  fst (AdaptiveExecutorRepartitioning.ExecuteTasksInDependencyOrder env h
         allTasks topLevelTasks tr0) <> Err LoopBudget
  /\ AdaptiveExecutorRepartitioning.drain env (S (length allTasks) + extra) h
       allTasks
       (AdaptiveExecutorRepartitioning.AddCompletedTasks h topLevelTasks ∅)
       tr0
     = AdaptiveExecutorRepartitioning.ExecuteTasksInDependencyOrder_table env
         h allTasks topLevelTasks tr0
  /\ exists batches,
       snd (AdaptiveExecutorRepartitioning.ExecuteTasksInDependencyOrder env
              h allTasks topLevelTasks tr0)
       = tr0 ++ (EvExecuteTaskList <$> batches)
       /\ length batches <= length allTasks.
Proof.
  destruct (table_run_spec env h allTasks topLevelTasks tr0)
    as (batches & Htr & Hne & Hnd & Hfresh & Hres).
  assert (Hend :
    fst (AdaptiveExecutorRepartitioning.ExecuteTasksInDependencyOrder_table
           env h allTasks topLevelTasks tr0) <> Err LoopBudget).
  { destruct (fst (AdaptiveExecutorRepartitioning.ExecuteTasksInDependencyOrder_table
                     env h allTasks topLevelTasks tr0)) as [table|e]; [done|].
    by destruct Hres as [-> _]. }
  split_and!.
  - rewrite ExecuteTasksInDependencyOrder_unfold. cbn [fst].
    destruct (fst (AdaptiveExecutorRepartitioning.ExecuteTasksInDependencyOrder_table
                     env h allTasks topLevelTasks tr0)); [done | congruence].
  - by apply drain_more.
  - exists batches. rewrite ExecuteTasksInDependencyOrder_unfold. cbn [snd].
    split; [exact Htr|].
    pose proof (length_concat_nonempty batches Hne).
    assert (length (concat batches) <= length allTasks); [|lia].
    apply submseteq_length, NoDup_submseteq.
    + by eapply NoDup_fmap_1.
    + intros t Ht. by apply Hfresh.
Qed.

(** ** The order of the dispatches *)

Lemma dispatches_inj (tr : Trace) (batches1 batches2 : list (list TaskPtr)) :
  tr ++ (EvExecuteTaskList <$> batches1) = tr ++ (EvExecuteTaskList <$> batches2)
  -> batches1 = batches2.
Proof.
  intros Heq%app_inv_head. revert batches2 Heq.
  induction batches1 as [|b bs IH]; intros [|b' bs']; cbn; try done.
  intros [= -> Hrest]. f_equal. by apply IH.
Qed.

Section DispatchOrder.

Import AdaptiveExecutorRepartitioning.

Variable env : Collaborators.
Variable h : Heap.

Lemma depsBefore_app table l1 l2 :
  depsBefore h table (l1 ++ l2)
  <-> depsBefore h table l1 /\ depsBefore h (keysOf h l1 ∪ table) l2.
Proof.
  revert table; induction l1 as [|t l1 IH]; intros table; cbn [app depsBefore].
  - assert (keysOf h [] ∪ table = table) as ->
      by (unfold keysOf; simpl; apply leibniz_equiv; set_solver).
    tauto.
  - rewrite IH.
    assert (keysOf h l1 ∪ ({[FillTaskKey h t]} ∪ table)
            = keysOf h (t :: l1) ∪ table) as ->.
    { unfold keysOf. cbn [fmap list_fmap list_to_set].
      generalize (list_to_set (C := HTAB) (FillTaskKey h <$> l1)).
      intros X. apply leibniz_equiv. set_solver. }
    tauto.
Qed.

Lemma depsBefore_split table before t after :
  depsBefore h table (before ++ t :: after) ->
  forall d, d ∈ dependedTaskList (h t) ->
            FillTaskKey h d ∈ keysOf h before ∪ table.
Proof.
  rewrite depsBefore_app. cbn [depsBefore]. by intros (_ & Hd & _).
Qed.

(** The batch of a scan, in the order of the scan: a task enters it when
    its dependencies are in the table or entered the batch before it. *)
Lemma scanTasks_order cells completedTasks curTasks :
  exists new,
    scanTasks h cells completedTasks curTasks
      = (keysOf h new ∪ completedTasks, curTasks ++ new)
    /\ sublist new cells
    /\ depsBefore h completedTasks new.
Proof.
  revert completedTasks curTasks.
  induction cells as [|task rest IH]; intros c cur; cbn [scanTasks].
  - exists []. rewrite app_nil_r. split_and!; [|done|done].
    f_equal. unfold keysOf; simpl. apply leibniz_equiv. set_solver.
  - destruct (IsAllDependencyCompleted h task c) eqn:Hdeps.
    + unfold IsTaskAlreadyCompleted.
      destruct (decide (FillTaskKey h task ∈ c)) as [Hin|Hout].
      * rewrite hash_search_enter_found by done; cbn [negb].
        destruct (IH c cur) as (new & Heq & Hsub & Hord).
        exists new. split_and!; [done | by apply sublist_cons | done].
      * rewrite hash_search_enter_new by done; cbn [negb].
        destruct (IH ({[FillTaskKey h task]} ∪ c) (lappend cur task))
          as (new & Heq & Hsub & Hord).
        exists (task :: new). split_and!.
        -- rewrite Heq. unfold lappend. rewrite <- app_assoc. f_equal.
           unfold keysOf. cbn [fmap list_fmap list_to_set].
           generalize (list_to_set (C := HTAB) (FillTaskKey h <$> new)).
           intros X. apply leibniz_equiv. set_solver.
        -- by apply sublist_skip.
        -- cbn [depsBefore]. split; [|done].
           by apply IsAllDependencyCompleted_true.
    + destruct (IH c cur) as (new & Heq & Hsub & Hord).
      exists new. split_and!; [done | by apply sublist_cons | done].
Qed.

(** The batches of the loop, one after the other. *)
Lemma drain_order budget allTasks completedTasks tr :
  exists batches,
    snd (drain env budget h allTasks completedTasks tr)
      = tr ++ (EvExecuteTaskList <$> batches)
    /\ Forall (fun batch => sublist batch allTasks) batches
    /\ depsBefore h completedTasks (concat batches).
Proof.
  revert completedTasks tr.
  induction budget as [|budget IH]; intros c tr.
  - exists []. cbn. by rewrite app_nil_r.
  - cbn [drain].
    destruct (scanTasks_order allTasks c []) as (new & Heq & Hsub & Hord).
    rewrite Heq. cbn [app].
    destruct new as [|t0 new'].
    + exists []. cbn. by rewrite app_nil_r.
    + set (new := t0 :: new') in *.
      change (Nat.eqb (list_length new) 0) with false. cbv iota.
      unfold mbind, M_bind, ExecuteTaskList.
      destruct (executeSucceeds env tr new).
      * rewrite AddCompletedTasks_keys.
        assert (keysOf h new ∪ (keysOf h new ∪ c) = keysOf h new ∪ c) as ->.
        { generalize (keysOf h new). intros X.
          apply leibniz_equiv. set_solver. }
        destruct (IH (keysOf h new ∪ c) (tr ++ [EvExecuteTaskList new]))
          as (batches & Htr & Hsubs & Hords).
        exists (new :: batches). split_and!.
        -- rewrite Htr, <- app_assoc. reflexivity.
        -- by constructor.
        -- cbn [concat]. by apply depsBefore_app.
      * exists [new]. cbn [fst snd fmap list_fmap concat].
        rewrite app_nil_r. split_and!; [done | by repeat constructor | done].
Qed.

End DispatchOrder.

(** X8.  Whatever the input and the outcome, a batch that the scheduler
    dispatches is not empty and lists its tasks in the order in which
    [allTasks] lists them, and no two tasks dispatched in the run, in one
    batch or in two, have the same identity. *)
Theorem X8_batches_follow_the_task_list
    (env : Collaborators) (h : Heap) (allTasks topLevelTasks : list TaskPtr)
    (tr0 : Trace) :
  exists batches,
    snd (AdaptiveExecutorRepartitioning.ExecuteTasksInDependencyOrder env h
           allTasks topLevelTasks tr0)
      = tr0 ++ (EvExecuteTaskList <$> batches)
    /\ Forall (fun batch => batch <> [] /\ sublist batch allTasks) batches
    /\ NoDup (AdaptiveExecutorRepartitioning.FillTaskKey h <$> concat batches).
Proof.
  destruct (table_run_spec env h allTasks topLevelTasks tr0)
    as (batches & Htr & Hne & Hnd & _).
  destruct (drain_order env h (S (length allTasks)) allTasks
              (AdaptiveExecutorRepartitioning.AddCompletedTasks h
                 topLevelTasks ∅) tr0)
    as (batches' & Htr' & Hsub & _).
  change (AdaptiveExecutorRepartitioning.drain env (S (length allTasks)) h
            allTasks
            (AdaptiveExecutorRepartitioning.AddCompletedTasks h topLevelTasks
               ∅) tr0)
    with (AdaptiveExecutorRepartitioning.ExecuteTasksInDependencyOrder_table
            env h allTasks topLevelTasks tr0) in Htr'.
  rewrite Htr in Htr'. apply dispatches_inj in Htr' as <-.
  exists batches. rewrite ExecuteTasksInDependencyOrder_unfold. cbn [snd].
  split_and!; [done | | done].
  apply Forall_forall. intros batch Hb. split.
  - by eapply (proj1 (Forall_forall _ _)) in Hne.
  - by eapply (proj1 (Forall_forall _ _)) in Hsub.
Qed.

(** X9.  Whatever the input and the outcome, in the sequence of all tasks
    dispatched, batch after batch, every dependency of a task has the
    identity of a top-level task or of a task that stands before it: a task
    is dispatched no earlier than its dependencies, if in the same batch
    then behind them. *)
Theorem X9_dependencies_are_dispatched_no_later
    (env : Collaborators) (h : Heap) (allTasks topLevelTasks : list TaskPtr)
    (tr0 : Trace) :
  exists batches,
    snd (AdaptiveExecutorRepartitioning.ExecuteTasksInDependencyOrder env h
           allTasks topLevelTasks tr0)
      = tr0 ++ (EvExecuteTaskList <$> batches)
    /\ forall before t after,
         concat batches = before ++ t :: after ->
         Forall (fun d =>
                   AdaptiveExecutorRepartitioning.FillTaskKey h d
                   ∈ keysOf h topLevelTasks ∪ keysOf h before)
           (dependedTaskList (h t)).
Proof.
  destruct (drain_order env h (S (length allTasks)) allTasks
              (AdaptiveExecutorRepartitioning.AddCompletedTasks h
                 topLevelTasks ∅) tr0)
    as (batches & Htr & _ & Hord).
  exists batches. rewrite ExecuteTasksInDependencyOrder_unfold. cbn [snd].
  split; [exact Htr|].
  intros before t after Hsplit. apply Forall_forall. intros d Hd.
  rewrite Hsplit in Hord.
  pose proof (depsBefore_split h _ _ _ _ Hord d Hd) as Hkey.
  rewrite AddCompletedTasks_keys in Hkey.
  revert Hkey. generalize (keysOf h before) (keysOf h topLevelTasks).
  intros X Y. set_solver.
Qed.

Section WaveBarrier.

Import AdaptiveExecutorRepartitioning.

Variable env : Collaborators.
Variable h : Heap.
Variables allTasks topLevelTasks : list TaskPtr.

Hypothesis Hfirst : DependentsFirst h allTasks topLevelTasks.
Hypothesis Hunique : NoDup (FillTaskKey h <$> allTasks).

(** When dependents are listed first, a task of a batch found its
    dependencies in the table as the scan began, not among the tasks that
    the scan had just entered. *)
Lemma batch_behind_the_table table new :
  keysOf h topLevelTasks ⊆ table ->
  sublist new allTasks ->
  depsBefore h table new ->
  forall t d, t ∈ new -> d ∈ dependedTaskList (h t) ->
              FillTaskKey h d ∈ table.
Proof.
  intros Htop Hsub Hord t d Ht Hd.
  apply list_elem_of_split in Ht as (n1 & n2 & ->).
  pose proof (depsBefore_split h _ _ _ _ Hord d Hd) as Hkey.
  apply elem_of_union in Hkey as [Hkey|Hkey]; [|done].
  apply keysOf_inv in Hkey as (t' & Ht' & Hsame).
  apply sublist_app_l in Hsub as (k1 & k2 & Hall & Hsub1 & Hsub2).
  apply sublist_cons_l in Hsub2 as (k21 & k22 & -> & _).
  assert (Hsplit : allTasks = (k1 ++ k21) ++ t :: k22)
    by (by rewrite Hall, <- app_assoc).
  destruct (Hfirst _ _ _ Hsplit d Hd) as [Hafter|Htopd].
  - exfalso. rewrite Hall, fmap_app in Hunique.
    apply NoDup_app in Hunique as (_ & Hdisj & _).
    apply (Hdisj (FillTaskKey h t')).
    + apply list_elem_of_fmap. exists t'. split; [done|].
      by eapply elem_of_sublist.
    + rewrite Hsame. apply list_elem_of_fmap. exists d. split; [done|].
      apply elem_of_app; right. by right.
  - apply Htop. by apply keysOf_elem.
Qed.

Lemma drain_waves budget completedTasks tr :
  keysOf h topLevelTasks ⊆ completedTasks ->
  exists batches,
    snd (drain env budget h allTasks completedTasks tr)
      = tr ++ (EvExecuteTaskList <$> batches)
    /\ wavesFrom h completedTasks batches.
Proof.
  revert completedTasks tr.
  induction budget as [|budget IH]; intros c tr Htop.
  - exists []. cbn. by rewrite app_nil_r.
  - cbn [drain].
    destruct (scanTasks_order h allTasks c []) as (new & Heq & Hsub & Hord).
    rewrite Heq. cbn [app].
    destruct new as [|t0 new'].
    + exists []. cbn. by rewrite app_nil_r.
    + set (new := t0 :: new') in *.
      change (Nat.eqb (list_length new) 0) with false. cbv iota.
      unfold mbind, M_bind, ExecuteTaskList.
      assert (Hbarrier : forall t d, t ∈ new -> d ∈ dependedTaskList (h t) ->
                                     FillTaskKey h d ∈ c)
        by (by apply batch_behind_the_table).
      destruct (executeSucceeds env tr new).
      * rewrite AddCompletedTasks_keys.
        assert (keysOf h new ∪ (keysOf h new ∪ c) = keysOf h new ∪ c) as ->.
        { generalize (keysOf h new). intros X.
          apply leibniz_equiv. set_solver. }
        destruct (IH (keysOf h new ∪ c) (tr ++ [EvExecuteTaskList new]))
          as (batches & Htr & Hwaves).
        { by apply union_subseteq_r'. }
        exists (new :: batches). split.
        -- rewrite Htr, <- app_assoc. reflexivity.
        -- cbn [wavesFrom]. by split.
      * exists [new]. cbn [fst snd fmap list_fmap wavesFrom].
        by split.
Qed.

End WaveBarrier.

Lemma wavesFrom_lookup (h : Heap) (batches : list (list TaskPtr)) :
  forall table i batch t d,
    wavesFrom h table batches ->
    batches !! i = Some batch -> t ∈ batch -> d ∈ dependedTaskList (h t) ->
    AdaptiveExecutorRepartitioning.FillTaskKey h d
    ∈ table ∪ keysOf h (concat (take i batches)).
Proof.
  induction batches as [|b batches IH]; intros table i batch t d Hw Hi Ht Hd;
    [done|].
  destruct Hw as [Hb Hrest]. destruct i as [|i].
  - injection Hi as <-. apply elem_of_union_l. by eapply Hb.
  - cbn [lookup list_lookup] in Hi. cbn [take concat].
    pose proof (IH _ _ _ _ _ Hrest Hi Ht Hd) as Hkey.
    rewrite keysOf_app. revert Hkey.
    generalize (keysOf h b) (keysOf h (concat (take i batches))).
    intros X Y. set_solver.
Qed.

(** X10.  When [allTasks] lists every task before its dependencies and
    gives each identity once, the waves are barriers: every dependency of a
    task of a batch has the identity of a top-level task or of a task of a
    batch dispatched before. *)
Theorem X10_dependents_first_gives_wave_barriers
    (env : Collaborators) (h : Heap) (allTasks topLevelTasks : list TaskPtr)
    (tr0 : Trace) :
  DependentsFirst h allTasks topLevelTasks ->
  NoDup (AdaptiveExecutorRepartitioning.FillTaskKey h <$> allTasks) ->
  exists batches,
    snd (AdaptiveExecutorRepartitioning.ExecuteTasksInDependencyOrder env h
           allTasks topLevelTasks tr0)
      = tr0 ++ (EvExecuteTaskList <$> batches)
    /\ forall i batch t d,
         batches !! i = Some batch -> t ∈ batch ->
         d ∈ dependedTaskList (h t) ->
         AdaptiveExecutorRepartitioning.FillTaskKey h d
         ∈ keysOf h topLevelTasks ∪ keysOf h (concat (take i batches)).
Proof.
  intros Hfirst Hunique.
  destruct (drain_waves env h allTasks topLevelTasks Hfirst Hunique
              (S (length allTasks))
              (AdaptiveExecutorRepartitioning.AddCompletedTasks h
                 topLevelTasks ∅) tr0)
    as (batches & Htr & Hwaves).
  { rewrite AddCompletedTasks_keys. apply union_subseteq_l. }
  exists batches. rewrite ExecuteTasksInDependencyOrder_unfold. cbn [snd].
  split; [exact Htr|].
  intros i batch t d Hi Ht Hd.
  pose proof (wavesFrom_lookup h batches _ _ _ _ _ Hwaves Hi Ht Hd) as Hkey.
  rewrite AddCompletedTasks_keys in Hkey. revert Hkey.
  generalize (keysOf h topLevelTasks) (keysOf h (concat (take i batches))).
  intros X Y. set_solver.
Qed.

Lemma scenarioA_dependents_first :
  DependentsFirst scenarioA [0; 3; 1; 2] [0].
Proof.
  intros before t after Hsplit d Hd.
  destruct before as [|b0 [|b1 [|b2 [|b3 [|b4 before]]]]];
    cbn in Hsplit; simplify_eq; cbn in Hd; set_unfold; naive_solver.
Qed.

(** The theorem of X10 on scenario A listed with T3 before T1 and T2. *)
Lemma X10_dependents_first_gives_wave_barriers_witness :
  exists batches,
    snd (AdaptiveExecutorRepartitioning.ExecuteTasksInDependencyOrder
           (exampleEnv false [0; 3; 1; 2] false) scenarioA [0; 3; 1; 2] [0]
           [])
      = [] ++ (EvExecuteTaskList <$> batches)
    /\ forall i batch t d,
         batches !! i = Some batch -> t ∈ batch ->
         d ∈ dependedTaskList (scenarioA t) ->
         AdaptiveExecutorRepartitioning.FillTaskKey scenarioA d
         ∈ keysOf scenarioA [0] ∪ keysOf scenarioA (concat (take i batches)).
Proof.
  apply X10_dependents_first_gives_wave_barriers.
  - exact scenarioA_dependents_first.
  - apply (bool_decide_unpack _). vm_compute. exact I.
Defined.

(** ** The outcome of the scheduler *)

Lemma drain_outcome (env : Collaborators) (h : Heap) (budget : nat)
    (allTasks : list TaskPtr) (completedTasks : HTAB) (tr : Trace) :
  match fst (AdaptiveExecutorRepartitioning.drain env budget h allTasks
               completedTasks tr) with
  | Ok _ =>
      extends env tr
        (snd (AdaptiveExecutorRepartitioning.drain env budget h allTasks
                completedTasks tr))
  | Err RemoteExecutionFailed =>
      exists tr1 batch,
        snd (AdaptiveExecutorRepartitioning.drain env budget h allTasks
               completedTasks tr) = tr1 ++ [EvExecuteTaskList batch]
        /\ extends env tr tr1
        /\ executeSucceeds env tr1 batch = false
  | Err LoopBudget => True
  | Err _ => False
  end.
Proof.
  revert completedTasks tr.
  induction budget as [|budget IH]; intros c tr; [done|].
  cbn [AdaptiveExecutorRepartitioning.drain].
  destruct (AdaptiveExecutorRepartitioning.scanTasks h allTasks c [])
    as [c1 cur].
  destruct (Nat.eqb (list_length cur) 0); [constructor|].
  unfold mbind, M_bind, ExecuteTaskList.
  destruct (executeSucceeds env tr cur) eqn:Hexec.
  - specialize (IH (AdaptiveExecutorRepartitioning.AddCompletedTasks h cur c1)
                  (tr ++ [EvExecuteTaskList cur])).
    assert (Hstep : extends env tr (tr ++ [EvExecuteTaskList cur]))
      by (apply extends_snoc; [constructor | exact Hexec]).
    destruct (AdaptiveExecutorRepartitioning.drain env budget h allTasks
                (AdaptiveExecutorRepartitioning.AddCompletedTasks h cur c1)
                (tr ++ [EvExecuteTaskList cur])) as [[table|e] tr'];
      cbn [fst snd] in *.
    + by eapply extends_trans.
    + destruct e; try done.
      destruct IH as (tr1 & batch & -> & Hext & Hfail).
      exists tr1, batch. split_and!; [done | | done].
      by eapply extends_trans.
  - cbn [fst snd]. exists tr, cur. split_and!; [done | constructor | done].
Qed.

Lemma scheduler_outcome
    (env : Collaborators) (h : Heap) (allTasks topLevelTasks : list TaskPtr)
    (tr0 : Trace) :
  (fst (AdaptiveExecutorRepartitioning.ExecuteTasksInDependencyOrder env h
          allTasks topLevelTasks tr0) = Ok tt
   /\ extends env tr0
        (snd (AdaptiveExecutorRepartitioning.ExecuteTasksInDependencyOrder
                env h allTasks topLevelTasks tr0)))
  \/ (fst (AdaptiveExecutorRepartitioning.ExecuteTasksInDependencyOrder env h
             allTasks topLevelTasks tr0) = Err RemoteExecutionFailed
      /\ exists tr1 batch,
           snd (AdaptiveExecutorRepartitioning.ExecuteTasksInDependencyOrder
                  env h allTasks topLevelTasks tr0)
           = tr1 ++ [EvExecuteTaskList batch]
           /\ extends env tr0 tr1
           /\ executeSucceeds env tr1 batch = false).
Proof.
  rewrite ExecuteTasksInDependencyOrder_unfold. cbn [fst snd].
  destruct (table_run_spec env h allTasks topLevelTasks tr0)
    as (batches & _ & _ & _ & _ & Hres).
  pose proof (drain_outcome env h (S (length allTasks)) allTasks
                (AdaptiveExecutorRepartitioning.AddCompletedTasks h
                   topLevelTasks ∅) tr0) as Hout.
  change (AdaptiveExecutorRepartitioning.drain env (S (length allTasks)) h
            allTasks
            (AdaptiveExecutorRepartitioning.AddCompletedTasks h topLevelTasks
               ∅) tr0)
    with (AdaptiveExecutorRepartitioning.ExecuteTasksInDependencyOrder_table
            env h allTasks topLevelTasks tr0) in Hout.
  destruct (fst (AdaptiveExecutorRepartitioning.ExecuteTasksInDependencyOrder_table
                   env h allTasks topLevelTasks tr0)) as [table|e].
  - by left.
  - destruct Hres as [-> _]. by right.
Qed.

(** X11.  The scheduler makes dispatches only.  It returns normally
    exactly when every dispatch it made succeeded; otherwise it has stopped
    at the first dispatch that failed, which is its last call, and returns
    the error of the remote execution. *)
Theorem X11_scheduler_stops_at_the_first_failed_dispatch
    (env : Collaborators) (h : Heap) (allTasks topLevelTasks : list TaskPtr)
    (tr0 : Trace) :
  exists batches,
    snd (AdaptiveExecutorRepartitioning.ExecuteTasksInDependencyOrder env h
           allTasks topLevelTasks tr0)
      = tr0 ++ (EvExecuteTaskList <$> batches)
    /\ ((fst (AdaptiveExecutorRepartitioning.ExecuteTasksInDependencyOrder
                env h allTasks topLevelTasks tr0) = Ok tt
         /\ extends env tr0 (tr0 ++ (EvExecuteTaskList <$> batches)))
        \/ (fst (AdaptiveExecutorRepartitioning.ExecuteTasksInDependencyOrder
                   env h allTasks topLevelTasks tr0)
            = Err RemoteExecutionFailed
            /\ exists earlier batch,
                 batches = earlier ++ [batch]
                 /\ extends env tr0 (tr0 ++ (EvExecuteTaskList <$> earlier))
                 /\ executeSucceeds env
                      (tr0 ++ (EvExecuteTaskList <$> earlier)) batch
                    = false)).
Proof.
  destruct (scheduler_dispatches_only env h allTasks topLevelTasks tr0)
    as (batches & Htr).
  exists batches. split; [exact Htr|].
  destruct (scheduler_outcome env h allTasks topLevelTasks tr0)
    as [[Hres Hext]|(Hres & tr1 & batch & Htr1 & Hext & Hfail)].
  - left. split; [exact Hres|]. by rewrite <- Htr.
  - right. split; [exact Hres|].
    rewrite Htr in Htr1.
    destruct batches as [|b batches _] using rev_ind.
    + cbn in Htr1. rewrite app_nil_r in Htr1.
      apply extends_prefix in Hext as (evs & ->).
      apply (f_equal length) in Htr1.
      rewrite !length_app in Htr1. cbn in Htr1. lia.
    + rewrite fmap_app, app_assoc in Htr1. cbn in Htr1.
      apply app_inj_tail in Htr1 as [<- [= <-]].
      by exists batches, b.
Qed.

(** ** Query strings and the scheduler *)

Section SchedulerReadsNoQueryString.

Import AdaptiveExecutorRepartitioning.

Variable env : Collaborators.
Variables h h' : Heap.

Hypothesis Hsame : forall p, withoutQueryString (h' p) = withoutQueryString (h p).






End SchedulerReadsNoQueryString.



(** ** The synthesis of the fetch commands *)

(** X13.  Given a first placement of the map task, [MapFetchTaskQueryString]
    either returns the fetch command of that placement or stops at a failed
    assertion; in a build without assertions it returns the command
    whatever the types of the two tasks are. *)
Theorem X13_MapFetchTaskQueryString_checks_types_by_assertion_only
    (env : Collaborators) (h : Heap) (mapFetchTask mapTask : TaskPtr)
    (placement : ShardPlacement) (replicas : list ShardPlacement) :
  taskPlacementList (h mapTask) = placement :: replicas ->
  (AdaptiveExecutorRepartitioning.MapFetchTaskQueryString env h mapFetchTask
     mapTask
   = Ok (fetchCommand env h mapFetchTask mapTask placement)
   \/ AdaptiveExecutorRepartitioning.MapFetchTaskQueryString env h
        mapFetchTask mapTask
      = Err FailedAssertion)
  /\ (USE_ASSERT_CHECKING env = false ->
      AdaptiveExecutorRepartitioning.MapFetchTaskQueryString env h
        mapFetchTask mapTask
      = Ok (fetchCommand env h mapFetchTask mapTask placement)).
Proof.
  intros Hpl.
  unfold AdaptiveExecutorRepartitioning.MapFetchTaskQueryString, Assert.
  rewrite Hpl. cbn.
  destruct (USE_ASSERT_CHECKING env); cbn; [|by split; [left|]].
  split; [|done].
  destruct (bool_decide (taskType (h mapFetchTask) = MAP_OUTPUT_FETCH_TASK));
    cbn; [|by right].
  destruct (bool_decide (taskType (h mapTask) = MAP_TASK)); cbn;
    [by left | by right].
Qed.

(** The theorem of X13 on the fetch task whose dependency is a merge
    task. *)
Lemma X13_MapFetchTaskQueryString_checks_types_by_assertion_only_witness :
  (AdaptiveExecutorRepartitioning.MapFetchTaskQueryString
     (exampleEnv false [0; 1; 2; 3] false) mistypedHeap 2 3
   = Ok "fetch(7,3,4,1,w1,5432)"
   \/ AdaptiveExecutorRepartitioning.MapFetchTaskQueryString
        (exampleEnv false [0; 1; 2; 3] false) mistypedHeap 2 3
      = Err FailedAssertion)
  /\ (false = false ->
      AdaptiveExecutorRepartitioning.MapFetchTaskQueryString
        (exampleEnv false [0; 1; 2; 3] false) mistypedHeap 2 3
      = Ok "fetch(7,3,4,1,w1,5432)").
Proof.
  apply (X13_MapFetchTaskQueryString_checks_types_by_assertion_only
           (exampleEnv false [0; 1; 2; 3] false) mistypedHeap 2 3
           (mkShardPlacement "w1" 5432) [mkShardPlacement "w2" 5433]).
  reflexivity.
Defined.

(** X14.  When [PutMapOutputFetchQueryStrings] returns, the tasks outside
    its list are as they were, and of the tasks of the list nothing but the
    query string has changed. *)
Theorem X14_PutMapOutputFetchQueryStrings_writes_query_strings_only
    (env : Collaborators) (mapOutputFetchTasks : list TaskPtr) (h h' : Heap) :
  AdaptiveExecutorRepartitioning.PutMapOutputFetchQueryStrings env h
    mapOutputFetchTasks = Ok h' ->
  (forall p, withoutQueryString (h' p) = withoutQueryString (h p))
  /\ (forall p, p ∉ mapOutputFetchTasks -> h' p = h p).
Proof.
  revert h. induction mapOutputFetchTasks as [|task rest IH]; intros h;
    cbn [AdaptiveExecutorRepartitioning.PutMapOutputFetchQueryStrings].
  - by intros [= <-].
  - destruct (linitial (dependedTaskList (h task))) as [mapTask|e]; cbn;
      [|done].
    destruct (AdaptiveExecutorRepartitioning.MapFetchTaskQueryString env h
                task mapTask) as [s|e]; cbn; [|done].
    intros [Hsame Hother]%IH. split.
    + intros p. by rewrite Hsame, set_queryString_same.
    + intros p [Hne Hp]%not_elem_of_cons. rewrite Hother by done.
      by apply set_queryString_ne.
Qed.

(** The theorem of X14 on the fetch task of the repartition job. *)
Lemma X14_PutMapOutputFetchQueryStrings_writes_query_strings_only_witness :
  (forall p,
     withoutQueryString
       (AdaptiveExecutorRepartitioning.set_queryString repartitionHeap 2
          "fetch(7,3,4,1,w1,5432)" p)
     = withoutQueryString (repartitionHeap p))
  /\ (forall p,
        p ∉ [2] ->
        AdaptiveExecutorRepartitioning.set_queryString repartitionHeap 2
          "fetch(7,3,4,1,w1,5432)" p
        = repartitionHeap p).
Proof.
  apply (X14_PutMapOutputFetchQueryStrings_writes_query_strings_only
           (exampleEnv true [0; 1; 2; 3] false) [2]).
  reflexivity.
Defined.

(** ** Commands and job ids *)

Lemma string_length_append (s1 s2 : string) :
  String.length (s1 +:+ s2) = String.length s1 + String.length s2.
Proof.
  induction s1 as [|c s1 IH]; [reflexivity|].
  change (S (String.length (s1 +:+ s2))
          = S (String.length s1 + String.length s2)).
  by f_equal.
Qed.

Lemma statements_app (templateCommand : N -> string) (l1 l2 : list N) :
  statements templateCommand (l1 ++ l2)
  = statements templateCommand l1 +:+ statements templateCommand l2.
Proof.
  induction l1 as [|j l1 IH]; [reflexivity|].
  cbn [app statements foldr] in *. unfold statements in IH.
  by rewrite IH, string_append_assoc.
Qed.

Lemma statements_length (templateCommand : N -> string) (l : list N) :
  String.length (statements templateCommand l)
  = sum_list_with (fun j => String.length (templateCommand j)) l.
Proof.
  induction l as [|j l IH]; [reflexivity|].
  cbn [statements foldr sum_list_with] in *. unfold statements in IH.
  by rewrite string_length_append, IH.
Qed.

(** X15.  [GenerateCommand] maps the concatenation of two lists of job ids
    to the concatenation of their commands; the command of no job id is
    empty, and the length of a command is the sum of the lengths of the
    template instances of its job ids, one for every entry of the list. *)
Theorem X15_GenerateCommand_concatenates
    (templateCommand : N -> string) (jobIds1 jobIds2 : list N) :
  RepartitionLogic.GenerateCommand (jobIds1 ++ jobIds2) templateCommand
  = RepartitionLogic.GenerateCommand jobIds1 templateCommand
    +:+ RepartitionLogic.GenerateCommand jobIds2 templateCommand
  /\ RepartitionLogic.GenerateCommand [] templateCommand = EmptyString
  /\ String.length (RepartitionLogic.GenerateCommand jobIds1 templateCommand)
     = sum_list_with (fun j => String.length (templateCommand j)) jobIds1.
Proof.
  rewrite !GenerateCommand_statements. split_and!.
  - apply statements_app.
  - reflexivity.
  - apply statements_length.
Qed.

Lemma distinctFirstSeen_sublist (l : list N) : sublist (distinctFirstSeen l) l.
Proof.
  induction l as [|x l IH]; [done|]. cbn [distinctFirstSeen].
  apply sublist_skip. etrans; [apply sublist_filter | exact IH].
Qed.

Lemma filter_other_than_absent (x : N) (l : list N) :
  x ∉ l -> filter (fun y => y <> x) l = l.
Proof.
  induction l as [|y l IH]; [done|].
  intros [Hne Hx]%not_elem_of_cons.
  rewrite filter_cons_True by (by apply not_eq_sym). f_equal. by apply IH.
Qed.

Lemma distinctFirstSeen_NoDup_id (l : list N) :
  NoDup l -> distinctFirstSeen l = l.
Proof.
  induction 1 as [|x l Hx _ IH]; [done|]. cbn [distinctFirstSeen].
  rewrite IH. f_equal. by apply filter_other_than_absent.
Qed.

Lemma CreateJobIds_from_app (h : Heap) (cells1 cells2 : list TaskPtr)
    (jobIds : list N) :
  RepartitionLogic.CreateJobIds_from h (cells1 ++ cells2) jobIds
  = RepartitionLogic.CreateJobIds_from h cells2
      (RepartitionLogic.CreateJobIds_from h cells1 jobIds).
Proof.
  revert jobIds; induction cells1 as [|t cells1 IH]; intros jobIds;
    cbn [app RepartitionLogic.CreateJobIds_from]; [done|].
  by destruct (negb (RepartitionLogic.DoesJobIDExist jobIds (jobId (h t)))).
Qed.

(** X16.  [CreateJobIds] returns job ids of the merge tasks in the order of
    the tasks, leaving out those seen before; job ids that are distinct
    already are returned as they are, and the job ids of two lists of tasks
    one after the other are those of the first followed by those of the
    second that the first did not have. *)
Theorem X16_CreateJobIds_keeps_the_order_of_the_tasks
    (h : Heap) (mergeTasks mergeTasks2 : list TaskPtr) :
  sublist (RepartitionLogic.CreateJobIds h mergeTasks)
    ((fun t => jobId (h t)) <$> mergeTasks)
  /\ (NoDup ((fun t => jobId (h t)) <$> mergeTasks) ->
      RepartitionLogic.CreateJobIds h mergeTasks
      = (fun t => jobId (h t)) <$> mergeTasks)
  /\ RepartitionLogic.CreateJobIds h (mergeTasks ++ mergeTasks2)
     = RepartitionLogic.CreateJobIds h mergeTasks
       ++ filter (fun j => j ∉ RepartitionLogic.CreateJobIds h mergeTasks)
            (RepartitionLogic.CreateJobIds h mergeTasks2).
Proof.
  split_and!.
  - rewrite CreateJobIds_distinctFirstSeen. apply distinctFirstSeen_sublist.
  - intros Hnd. rewrite CreateJobIds_distinctFirstSeen.
    by apply distinctFirstSeen_NoDup_id.
  - unfold RepartitionLogic.CreateJobIds at 1.
    rewrite CreateJobIds_from_app, CreateJobIds_from_spec.
    by rewrite <- CreateJobIds_distinctFirstSeen.
Qed.

(** ** Broadcasts to the workers *)

Lemma sendEvents_snoc (owner : string) (commandList : list string)
    (workers : list WorkerNode) (w : WorkerNode) :
  sendEvents owner commandList (workers ++ [w])
  = sendEvents owner commandList workers
    ++ [EvSendCommandList (workerName w) (workerPort w) owner commandList].
Proof. unfold sendEvents. by rewrite fmap_app. Qed.

Lemma SendCommandToAllWorkers_from_outcome (env : Collaborators)
    (owner : string) (commandList : list string) (workers : list WorkerNode)
    (tr : Trace) :
  (RepartitionLogic.SendCommandToAllWorkers_from env owner commandList workers
     tr
   = (Ok tt, tr ++ sendEvents owner commandList workers)
   /\ extends env tr (tr ++ sendEvents owner commandList workers))
  \/ exists m w,
       workers !! m = Some w
       /\ RepartitionLogic.SendCommandToAllWorkers_from env owner commandList
            workers tr
          = (Err BroadcastFailed,
             tr ++ sendEvents owner commandList (take (S m) workers))
       /\ extends env tr (tr ++ sendEvents owner commandList (take m workers))
       /\ sendSucceeds env
            (tr ++ sendEvents owner commandList (take m workers))
            (workerName w) (workerPort w) owner commandList = false.
Proof.
  revert tr; induction workers as [|w workers IH]; intros tr.
  - left. cbn. rewrite app_nil_r. split; [done | constructor].
  - cbn [RepartitionLogic.SendCommandToAllWorkers_from].
    unfold mbind, M_bind, SendCommandListToWorkerInSingleTransaction.
    destruct (sendSucceeds env tr (workerName w) (workerPort w) owner
                commandList) eqn:Hsend.
    + set (ev := EvSendCommandList (workerName w) (workerPort w) owner
                   commandList).
      assert (Hstep : extends env tr (tr ++ [ev]))
        by (apply extends_snoc; [constructor | exact Hsend]).
      assert (Hshift : forall l,
                (tr ++ [ev]) ++ sendEvents owner commandList l
                = tr ++ sendEvents owner commandList (w :: l))
        by (intros l; by rewrite <- app_assoc).
      destruct (IH (tr ++ [ev])) as [[Hrun Hext]|(m & w' & Hm & Hrun & Hext & Hfail)].
      * left. rewrite Hrun, Hshift. split; [done|].
        rewrite <- Hshift. by eapply extends_trans.
      * right. exists (S m), w'. split_and!.
        -- exact Hm.
        -- rewrite Hrun. cbn [take]. by rewrite Hshift.
        -- cbn [take]. rewrite <- Hshift. by eapply extends_trans.
        -- cbn [take]. by rewrite <- Hshift.
    + right. exists 0, w. cbn [take]. split_and!; [done | done | |].
      * cbn. rewrite app_nil_r. constructor.
      * cbn. by rewrite app_nil_r.
Qed.

(** X17.  [SendCommandToAllWorkers] calls the nodes of the list of active
    readable nodes in the order of the list, with the name of the extension
    owner and the command list it was given.  Either every node accepted
    and it returns, or it stops at the first node that rejects: the nodes
    before it accepted, the nodes after it are not called, and the error of
    the broadcast is raised.  With no node it returns without a call. *)
Theorem X17_SendCommandToAllWorkers_stops_at_the_first_rejection
    (env : Collaborators) (commandList : list string) (tr : Trace) :
  (RepartitionLogic.SendCommandToAllWorkers env commandList tr
   = (Ok tt,
      tr ++ sendEvents (CitusExtensionOwnerName env) commandList
              (ActiveReadableNodeList env tr))
   /\ extends env tr
        (tr ++ sendEvents (CitusExtensionOwnerName env) commandList
                 (ActiveReadableNodeList env tr)))
  \/ exists m w,
       ActiveReadableNodeList env tr !! m = Some w
       /\ RepartitionLogic.SendCommandToAllWorkers env commandList tr
          = (Err BroadcastFailed,
             tr ++ sendEvents (CitusExtensionOwnerName env) commandList
                     (take (S m) (ActiveReadableNodeList env tr)))
       /\ extends env tr
            (tr ++ sendEvents (CitusExtensionOwnerName env) commandList
                     (take m (ActiveReadableNodeList env tr)))
       /\ sendSucceeds env
            (tr ++ sendEvents (CitusExtensionOwnerName env) commandList
                     (take m (ActiveReadableNodeList env tr)))
            (workerName w) (workerPort w) (CitusExtensionOwnerName env)
            commandList
          = false.
Proof.
  unfold RepartitionLogic.SendCommandToAllWorkers.
  apply SendCommandToAllWorkers_from_outcome.
Qed.

(** X18.  When no worker rejects it, [RemoveTempJobDirs] sends to every
    active readable node one command list that holds one command, made of
    one delete statement per job id it was given, in their order; without
    job ids the command is the empty string and is sent all the same. *)
Theorem X18_RemoveTempJobDirs_sends_one_delete_statement_per_job
    (env : Collaborators) (jobIds : list N) (tr : Trace) :
  (forall tr' name port user commands,
     sendSucceeds env tr' name port user commands = true) ->
  RepartitionLogic.RemoveTempJobDirs env jobIds tr
  = (Ok tt,
     tr ++ sendEvents (CitusExtensionOwnerName env)
             [statements (WORKER_DELETE_JOBDIR_QUERY env) jobIds]
             (ActiveReadableNodeList env tr))
  /\ RepartitionLogic.RemoveTempJobDirs env [] tr
     = (Ok tt,
        tr ++ sendEvents (CitusExtensionOwnerName env) [EmptyString]
                (ActiveReadableNodeList env tr)).
Proof.
  intros Hok.
  unfold RepartitionLogic.RemoveTempJobDirs,
    RepartitionLogic.GenerateDeleteJobsCommand,
    RepartitionLogic.SendCommandToAllWorkers.
  rewrite !SendCommandToAllWorkers_from_ok by done.
  by rewrite GenerateCommand_statements.
Qed.

(** The theorem of X18 on the two workers of the examples. *)
Lemma X18_RemoveTempJobDirs_sends_one_delete_statement_per_job_witness :
  RepartitionLogic.RemoveTempJobDirs (exampleEnv false [] false) [5%N; 7%N] []
  = (Ok tt,
     [EvSendCommandList "w1" 5432 "owner" ["delete(5);delete(7);"];
      EvSendCommandList "w2" 5433 "owner" ["delete(5);delete(7);"]])
  /\ RepartitionLogic.RemoveTempJobDirs (exampleEnv false [] false) [] []
     = (Ok tt,
        [EvSendCommandList "w1" 5432 "owner" [EmptyString];
         EvSendCommandList "w2" 5433 "owner" [EmptyString]]).
Proof.
  apply (X18_RemoveTempJobDirs_sends_one_delete_statement_per_job
           (exampleEnv false [] false) [5%N; 7%N] []).
  reflexivity.
Defined.

(** X19.  When no worker rejects it, [CleanUpSchemas] sends the one cleanup
    command to every active readable node, and a second sweep after it
    sends the same command to the nodes that are listed when it starts. *)
Theorem X19_CleanUpSchemas_sweeps_the_listed_nodes
    (env : Collaborators) (tr : Trace) :
  (forall tr' name port user commands,
     sendSucceeds env tr' name port user commands = true) ->
  RepartitionLogic.CleanUpSchemas env tr
  = (Ok tt,
     tr ++ sendEvents (CitusExtensionOwnerName env) [JOB_SCHEMA_CLEANUP env]
             (ActiveReadableNodeList env tr))
  /\ (RepartitionLogic.CleanUpSchemas env;;
      RepartitionLogic.CleanUpSchemas env) tr
     = (Ok tt,
        (tr ++ sendEvents (CitusExtensionOwnerName env)
                 [JOB_SCHEMA_CLEANUP env] (ActiveReadableNodeList env tr))
        ++ sendEvents (CitusExtensionOwnerName env) [JOB_SCHEMA_CLEANUP env]
             (ActiveReadableNodeList env
                (tr ++ sendEvents (CitusExtensionOwnerName env)
                         [JOB_SCHEMA_CLEANUP env]
                         (ActiveReadableNodeList env tr)))).
Proof.
  intros Hok.
  assert (Hone : forall tr1,
    RepartitionLogic.CleanUpSchemas env tr1
    = (Ok tt,
       tr1 ++ sendEvents (CitusExtensionOwnerName env) [JOB_SCHEMA_CLEANUP env]
                (ActiveReadableNodeList env tr1))).
  { intros tr1. unfold RepartitionLogic.CleanUpSchemas,
      RepartitionLogic.SendCommandToAllWorkers.
    by rewrite SendCommandToAllWorkers_from_ok. }
  split; [apply Hone|].
  unfold mbind, M_bind. by rewrite Hone, Hone.
Qed.

(** The theorem of X19 on the two workers of the examples. *)
Lemma X19_CleanUpSchemas_sweeps_the_listed_nodes_witness :
  RepartitionLogic.CleanUpSchemas (exampleEnv false [] false) []
  = (Ok tt,
     [EvSendCommandList "w1" 5432 "owner" ["cleanup()"];
      EvSendCommandList "w2" 5433 "owner" ["cleanup()"]])
  /\ (RepartitionLogic.CleanUpSchemas (exampleEnv false [] false);;
      RepartitionLogic.CleanUpSchemas (exampleEnv false [] false)) []
     = (Ok tt,
        [EvSendCommandList "w1" 5432 "owner" ["cleanup()"];
         EvSendCommandList "w2" 5433 "owner" ["cleanup()"]]
        ++ [EvSendCommandList "w1" 5432 "owner" ["cleanup()"];
            EvSendCommandList "w2" 5433 "owner" ["cleanup()"]]).
Proof.
  apply (X19_CleanUpSchemas_sweeps_the_listed_nodes
           (exampleEnv false [] false) []).
  reflexivity.
Defined.

(** ** The helpers that the two files share *)

Lemma doesJobIDExist_agree (jobIds : list N) (j : N) :
  AdaptiveExecutorRepartitioning.doesJobIDExist jobIds j
  = RepartitionLogic.DoesJobIDExist jobIds j.
Proof.
  induction jobIds as [|cur rest IH]; [done|].
  cbn. by rewrite IH.
Qed.

Lemma CreateJobIds_from_agree (h : Heap) (cells : list TaskPtr)
    (jobIds : list N) :
  AdaptiveExecutorRepartitioning.CreateJobIds_from h cells jobIds
  = RepartitionLogic.CreateJobIds_from h cells jobIds.
Proof.
  revert jobIds; induction cells as [|t cells IH]; intros jobIds; [done|].
  cbn [AdaptiveExecutorRepartitioning.CreateJobIds_from
         RepartitionLogic.CreateJobIds_from].
  rewrite doesJobIDExist_agree, !IH. reflexivity.
Qed.

Lemma GenerateCreateSchemasCommand_from_agree (env : Collaborators)
    (cells : list N) (command : string) :
  AdaptiveExecutorRepartitioning.GenerateCreateSchemasCommand_from env cells
    command
  = RepartitionLogic.GenerateCommand_from (WORKER_CREATE_SCHEMA_QUERY env)
      cells command.
Proof.
  revert command; induction cells as [|j cells IH]; intros command; [done|].
  cbn [AdaptiveExecutorRepartitioning.GenerateCreateSchemasCommand_from
         RepartitionLogic.GenerateCommand_from].
  apply IH.
Qed.

Lemma SendCommandToAllWorkers_from_agree (env : Collaborators)
    (owner : string) (commandList : list string) (workers : list WorkerNode)
    (tr : Trace) :
  AdaptiveExecutorRepartitioning.SendCommandToAllWorkers_from env owner
    commandList workers tr
  = RepartitionLogic.SendCommandToAllWorkers_from env owner commandList
      workers tr.
Proof.
  revert tr; induction workers as [|w workers IH]; intros tr; [done|].
  cbn [AdaptiveExecutorRepartitioning.SendCommandToAllWorkers_from
         RepartitionLogic.SendCommandToAllWorkers_from].
  unfold mbind, M_bind.
  destruct (SendCommandListToWorkerInSingleTransaction env (workerName w)
              (workerPort w) owner commandList tr) as [[[]|e] tr'];
    [apply IH | done].
Qed.

Lemma SendCommandToAllWorkers_agree (env : Collaborators)
    (commandList : list string) (tr : Trace) :
  AdaptiveExecutorRepartitioning.SendCommandToAllWorkers env commandList tr
  = RepartitionLogic.SendCommandToAllWorkers env commandList tr.
Proof.
  unfold AdaptiveExecutorRepartitioning.SendCommandToAllWorkers,
    RepartitionLogic.SendCommandToAllWorkers.
  apply SendCommandToAllWorkers_from_agree.
Qed.

Lemma CreateTemporarySchemas_agree (env : Collaborators) (h : Heap)
    (mergeTasks : list TaskPtr) (tr : Trace) :
  AdaptiveExecutorRepartitioning.CreateTemporarySchemas env h mergeTasks tr
  = (RepartitionLogic.CreateTemporarySchemas env h mergeTasks;; mret tt) tr.
Proof.
  unfold AdaptiveExecutorRepartitioning.CreateTemporarySchemas,
    RepartitionLogic.CreateTemporarySchemas,
    AdaptiveExecutorRepartitioning.CreateSchemasOnAllWorkers,
    RepartitionLogic.CreateSchemasOnAllWorkers,
    AdaptiveExecutorRepartitioning.GenerateCreateSchemasCommand,
    AdaptiveExecutorRepartitioning.CreateJobIds,
    RepartitionLogic.GenerateCreateSchemasCommand,
    RepartitionLogic.GenerateCommand, RepartitionLogic.CreateJobIds.
  rewrite SendCommandToAllWorkers_agree, CreateJobIds_from_agree,
    GenerateCreateSchemasCommand_from_agree.
  unfold mbind, M_bind.
  by destruct (RepartitionLogic.SendCommandToAllWorkers env _ tr)
    as [[[]|e] tr'].
Qed.

(** X20.  The helpers that adaptive_executor_repartioning.c and
    repartition_logic.c both define compute the same: the search of a job
    id, the job ids of the merge tasks, the create command, the broadcast
    and the sweep; the provisioning of the first file makes the calls of
    the provisioning of the second and fails when it fails. *)
Theorem X20_the_two_files_share_their_helpers
    (env : Collaborators) (h : Heap) (tasks : list TaskPtr) (jobIds : list N)
    (j : N) (commandList : list string) (tr : Trace) :
  AdaptiveExecutorRepartitioning.doesJobIDExist jobIds j
  = RepartitionLogic.DoesJobIDExist jobIds j
  /\ AdaptiveExecutorRepartitioning.CreateJobIds h tasks
     = RepartitionLogic.CreateJobIds h tasks
  /\ AdaptiveExecutorRepartitioning.GenerateCreateSchemasCommand env jobIds
     = RepartitionLogic.GenerateCreateSchemasCommand env jobIds
  /\ AdaptiveExecutorRepartitioning.SendCommandToAllWorkers env commandList tr
     = RepartitionLogic.SendCommandToAllWorkers env commandList tr
  /\ AdaptiveExecutorRepartitioning.CleanUpSchemas env tr
     = RepartitionLogic.CleanUpSchemas env tr
  /\ AdaptiveExecutorRepartitioning.CreateTemporarySchemas env h tasks tr
     = (RepartitionLogic.CreateTemporarySchemas env h tasks;; mret tt) tr.
Proof.
  split_and!.
  - apply doesJobIDExist_agree.
  - apply CreateJobIds_from_agree.
  - apply GenerateCreateSchemasCommand_from_agree.
  - apply SendCommandToAllWorkers_agree.
  - apply SendCommandToAllWorkers_agree.
  - apply CreateTemporarySchemas_agree.
Qed.

(** ** Whole runs *)

Lemma scheduler_succeeds (env : Collaborators) (h : Heap)
    (allTasks topLevelTasks : list TaskPtr) (tr : Trace) :
  (forall tr' taskList, executeSucceeds env tr' taskList = true) ->
  exists batches,
    AdaptiveExecutorRepartitioning.ExecuteTasksInDependencyOrder env h
      allTasks topLevelTasks tr
    = (Ok tt, tr ++ (EvExecuteTaskList <$> batches)).
Proof.
  intros Hok.
  destruct (scheduler_dispatches_only env h allTasks topLevelTasks tr)
    as (batches & Htr).
  exists batches.
  destruct (scheduler_outcome env h allTasks topLevelTasks tr)
    as [[Hres _]|(_ & tr1 & batch & _ & _ & Hfail)].
  - destruct (AdaptiveExecutorRepartitioning.ExecuteTasksInDependencyOrder
                env h allTasks topLevelTasks tr) as [r tr'].
    cbn [fst snd] in *. by subst.
  - by rewrite Hok in Hfail.
Qed.

(** X21.  When no modification was made before and no remote call fails,
    a run of [ExecuteDependedTasks] of repartition_logic.c returns
    normally, whatever the tasks are: it has sent the create command of the
    job ids of the merge tasks to the nodes, dispatched batches, and sent
    the delete command of the same job ids to the nodes listed after the
    last batch. *)
Theorem X21_ExecuteDependedTasks_succeeds_when_its_collaborators_do
    (env : Collaborators) (h : Heap) (topLevelTasks : list TaskPtr)
    (tr0 : Trace) :
  modificationsDone env = false ->
  (forall tr' name port user commands,
     sendSucceeds env tr' name port user commands = true) ->
  (forall tr' taskList, executeSucceeds env tr' taskList = true) ->
  exists batches,
    let jobIds :=
      RepartitionLogic.CreateJobIds h
        (RepartitionLogic.FillTaskGroups h
           (TaskAndExecutionList env h topLevelTasks)) in
    let tr1 :=
      tr0 ++ sendEvents (CitusExtensionOwnerName env)
               [statements (WORKER_CREATE_SCHEMA_QUERY env) jobIds]
               (ActiveReadableNodeList env tr0) in
    let tr2 := tr1 ++ (EvExecuteTaskList <$> batches) in
    RepartitionLogic.ExecuteDependedTasks env h topLevelTasks tr0
    = (Ok tt,
       tr2 ++ sendEvents (CitusExtensionOwnerName env)
                [statements (WORKER_DELETE_JOBDIR_QUERY env) jobIds]
                (ActiveReadableNodeList env tr2)).
Proof.
  intros Hmod Hsend Hexec.
  set (allTasks := TaskAndExecutionList env h topLevelTasks).
  set (jobIds := RepartitionLogic.CreateJobIds h
                   (RepartitionLogic.FillTaskGroups h allTasks)).
  set (tr1 := tr0 ++ sendEvents (CitusExtensionOwnerName env)
                       [statements (WORKER_CREATE_SCHEMA_QUERY env) jobIds]
                       (ActiveReadableNodeList env tr0)).
  destruct (scheduler_succeeds env h allTasks topLevelTasks tr1 Hexec)
    as (batches & Hsched).
  exists batches. cbn zeta.
  unfold RepartitionLogic.ExecuteDependedTasks,
    EnsureNoModificationsHaveBeenDone.
  rewrite Hmod.
  unfold RepartitionLogic.CreateTemporarySchemas,
    RepartitionLogic.CreateSchemasOnAllWorkers,
    RepartitionLogic.RemoveTempJobDirs,
    RepartitionLogic.GenerateCreateSchemasCommand,
    RepartitionLogic.GenerateDeleteJobsCommand,
    RepartitionLogic.SendCommandToAllWorkers.
  rewrite !GenerateCommand_statements.
  unfold mbind, M_bind. cbn [mret M_ret].
  rewrite SendCommandToAllWorkers_from_ok by done.
  fold allTasks. fold jobIds. fold tr1.
  unfold mret, M_ret. cbv beta iota. rewrite Hsched.
  rewrite SendCommandToAllWorkers_from_ok by done.
  by rewrite GenerateCommand_statements.
Qed.

(** The theorem of X21 on the repartition job. *)
Lemma X21_ExecuteDependedTasks_succeeds_when_its_collaborators_do_witness :
  exists batches,
    RepartitionLogic.ExecuteDependedTasks
      (exampleEnv false [0; 1; 2; 3] false) repartitionHeap [0] []
    = (Ok tt,
       (([] ++ [EvSendCommandList "w1" 5432 "owner" ["create(7);"];
                EvSendCommandList "w2" 5433 "owner" ["create(7);"]])
        ++ (EvExecuteTaskList <$> batches))
       ++ [EvSendCommandList "w1" 5432 "owner" ["delete(7);"];
           EvSendCommandList "w2" 5433 "owner" ["delete(7);"]]).
Proof.
  apply (X21_ExecuteDependedTasks_succeeds_when_its_collaborators_do
           (exampleEnv false [0; 1; 2; 3] false) repartitionHeap [0] []).
  - reflexivity.
  - reflexivity.
  - reflexivity.
Defined.

(** X22.  When a worker rejects the create command, the run of
    [ExecuteDependedTasks] of repartition_logic.c ends there with the error
    of the broadcast: the calls of the run are the calls to the nodes up to
    the one that rejected, no batch is dispatched and no delete command is
    sent. *)
Theorem X22_rejected_provisioning_ends_the_run
    (env : Collaborators) (h : Heap) (topLevelTasks : list TaskPtr)
    (tr0 : Trace) (e : Failure) :
  modificationsDone env = false ->
  fst (RepartitionLogic.CreateTemporarySchemas env h
         (RepartitionLogic.FillTaskGroups h
            (TaskAndExecutionList env h topLevelTasks)) tr0) = Err e ->
  exists m,
    m < length (ActiveReadableNodeList env tr0)
    /\ RepartitionLogic.ExecuteDependedTasks env h topLevelTasks tr0
       = (Err BroadcastFailed,
          tr0 ++ sendEvents (CitusExtensionOwnerName env)
                   [RepartitionLogic.GenerateCreateSchemasCommand env
                      (RepartitionLogic.CreateJobIds h
                         (RepartitionLogic.FillTaskGroups h
                            (TaskAndExecutionList env h topLevelTasks)))]
                   (take (S m) (ActiveReadableNodeList env tr0))).
Proof.
  intros Hmod.
  unfold RepartitionLogic.ExecuteDependedTasks,
    EnsureNoModificationsHaveBeenDone.
  rewrite Hmod.
  unfold RepartitionLogic.CreateTemporarySchemas,
    RepartitionLogic.CreateSchemasOnAllWorkers,
    RepartitionLogic.SendCommandToAllWorkers.
  unfold mbind, M_bind, mret, M_ret.
  destruct (SendCommandToAllWorkers_from_outcome env
              (CitusExtensionOwnerName env)
              [RepartitionLogic.GenerateCreateSchemasCommand env
                 (RepartitionLogic.CreateJobIds h
                    (RepartitionLogic.FillTaskGroups h
                       (TaskAndExecutionList env h topLevelTasks)))]
              (ActiveReadableNodeList env tr0) tr0)
    as [[Hrun _]|(m & w & Hm & Hrun & _)]; rewrite Hrun; cbn [fst]; [done|].
  intros _. exists m. split; [by eapply lookup_lt_Some | done].
Qed.

(** The theorem of X22 with a second worker that rejects. *)
Lemma X22_rejected_provisioning_ends_the_run_witness :
  exists m,
    m < 2
    /\ RepartitionLogic.ExecuteDependedTasks (rejectingEnv [0; 1; 2; 3])
         repartitionHeap [0] []
       = (Err BroadcastFailed,
          [] ++ sendEvents "owner" ["create(7);"]
                  (take (S m) [mkWorkerNode "w1" 5432; mkWorkerNode "w2" 5433])).
Proof.
  apply (X22_rejected_provisioning_ends_the_run (rejectingEnv [0; 1; 2; 3])
           repartitionHeap [0] [] BroadcastFailed).
  - reflexivity.
  - vm_compute. reflexivity.
Defined.

Lemma failing_call_is_last (env : Collaborators) {A} (c : M A) :
  sound env c ->
  forall tr0 pre ev post,
    snd (c tr0) = pre ++ ev :: post ->
    length tr0 <= length pre ->
    succeeded env pre ev = false ->
    post = [] /\ fst (c tr0) = Err (failureOf ev).
Proof.
  intros Hsound tr0 pre ev post Htr Hlen Hfail.
  destruct (Hsound tr0) as [Hext|(tr1 & ev' & Htr1 & Hext & Hev & Hres)].
  - pose proof (extends_succeeded env _ _ Hext _ _ _ Htr Hlen). congruence.
  - rewrite Htr in Htr1.
    destruct post as [|x post _] using rev_ind.
    + by apply app_inj_tail in Htr1 as [-> <-].
    + rewrite app_comm_cons, app_assoc in Htr1.
      apply app_inj_tail in Htr1 as [<- _].
      pose proof (extends_succeeded env _ _ Hext _ _ _ eq_refl Hlen).
      congruence.
Qed.

Lemma sound_TrackerCleanupJobDirectories (env : Collaborators) :
  sound env TrackerCleanupJobDirectories.
Proof.
  intros tr0. left. unfold TrackerCleanupJobDirectories. cbn [snd].
  apply extends_snoc; [constructor | reflexivity].
Qed.

Lemma sound_adaptive_SendCommandToAllWorkers (env : Collaborators)
    (commandList : list string) :
  sound env
    (AdaptiveExecutorRepartitioning.SendCommandToAllWorkers env commandList).
Proof.
  intros tr0. rewrite SendCommandToAllWorkers_agree.
  apply sound_SendCommandToAllWorkers.
Qed.

Lemma sound_adaptive_ExecuteDependedTasks (env : Collaborators) (h : Heap)
    (topLevelTasks : list TaskPtr) :
  sound env
    (AdaptiveExecutorRepartitioning.ExecuteDependedTasks env h topLevelTasks).
Proof.
  unfold AdaptiveExecutorRepartitioning.ExecuteDependedTasks.
  apply sound_bind; [apply sound_TrackerCleanupJobDirectories|intros _].
  destruct (AdaptiveExecutorRepartitioning.FillTaskGroups h
              (TaskAndExecutionList env h topLevelTasks)) as [fetch merge].
  apply sound_bind; [apply sound_lift|intros h'].
  apply sound_bind; [apply sound_adaptive_SendCommandToAllWorkers|intros _].
  apply sound_bind; [apply sound_ExecuteTasksInDependencyOrder|intros _].
  apply sound_ret.
Qed.

(** X23.  In a run of [ExecuteDependedTasks] of
    adaptive_executor_repartioning.c, a remote call that fails, a command
    sent to a worker or a dispatch, is the last call of the run, and the
    run ends with the error of that call. *)
Theorem X23_adaptive_run_stops_at_the_first_failed_call
    (env : Collaborators) (h : Heap) (topLevelTasks : list TaskPtr)
    (tr0 pre : Trace) (ev : Event) (post : Trace) :
  snd (AdaptiveExecutorRepartitioning.ExecuteDependedTasks env h topLevelTasks
         tr0) = pre ++ ev :: post ->
  length tr0 <= length pre ->
  succeeded env pre ev = false ->
  post = []
  /\ isOk (fst (AdaptiveExecutorRepartitioning.ExecuteDependedTasks env h
                  topLevelTasks tr0)) = false
  /\ fst (AdaptiveExecutorRepartitioning.ExecuteDependedTasks env h
            topLevelTasks tr0) = Err (failureOf ev).
Proof.
  intros Htr Hlen Hfail.
  destruct (failing_call_is_last env _
              (sound_adaptive_ExecuteDependedTasks env h topLevelTasks)
              tr0 pre ev post Htr Hlen Hfail) as [-> Hres].
  by rewrite Hres.
Qed.

(** The theorem of X23 with workers that reject after the first call of
    the run. *)
Lemma X23_adaptive_run_stops_at_the_first_failed_call_witness :
  @nil Event = []
  /\ isOk (fst (AdaptiveExecutorRepartitioning.ExecuteDependedTasks
                  (rejectingEnv [0; 1; 2; 3]) repartitionHeap [0] []))
     = false
  /\ fst (AdaptiveExecutorRepartitioning.ExecuteDependedTasks
            (rejectingEnv [0; 1; 2; 3]) repartitionHeap [0] [])
     = Err BroadcastFailed.
Proof.
  apply (X23_adaptive_run_stops_at_the_first_failed_call
           (rejectingEnv [0; 1; 2; 3]) repartitionHeap [0] []
           [EvTrackerCleanupJobDirectories]
           (EvSendCommandList "w1" 5432 "owner" ["create(7);"]) []).
  - vm_compute. reflexivity.
  - simpl. lia.
  - reflexivity.
Defined.

Lemma CreateJobIds_from_same (h h' : Heap) (cells : list TaskPtr)
    (jobIds : list N) :
  (forall p, withoutQueryString (h' p) = withoutQueryString (h p)) ->
  AdaptiveExecutorRepartitioning.CreateJobIds_from h' cells jobIds
  = AdaptiveExecutorRepartitioning.CreateJobIds_from h cells jobIds.
Proof.
  intros Hsame. revert jobIds.
  induction cells as [|t cells IH]; intros jobIds; [done|].
  cbn [AdaptiveExecutorRepartitioning.CreateJobIds_from].
  destruct (withoutQueryString_fields _ _ (Hsame t)) as (-> & _).
  by rewrite !IH.
Qed.

Lemma withoutQueryString_inj (t t' : Task) :
  withoutQueryString t = withoutQueryString t' ->
  queryString t = queryString t' ->
  t = t'.
Proof.
  destruct t, t'. unfold withoutQueryString. cbn.
  intros [= -> -> -> -> -> -> ->] ->. reflexivity.
Qed.

(** X24.  When the fetch tasks of the expanded list are well formed and no
    remote call fails, a run of [ExecuteDependedTasks] of
    adaptive_executor_repartioning.c returns the heap that the synthesis of
    the fetch commands left: every task outside the list of the fetch tasks
    is what it was, query string included, and a fetch task differs from
    what it was in its query string only, which is its fetch command.  The
    calls of the run are the cleanup of the job directories, the create
    command of the job ids of the merge tasks to every node, and batches.
    It sends no delete command. *)
Theorem X24_adaptive_run_succeeds_when_its_collaborators_do
    (env : Collaborators) (h : Heap) (topLevelTasks : list TaskPtr)
    (tr0 : Trace) :
  Forall (hasProducerPlacement h)
    (fst (AdaptiveExecutorRepartitioning.FillTaskGroups h
            (TaskAndExecutionList env h topLevelTasks))) ->
  Forall (wellTyped h)
    (fst (AdaptiveExecutorRepartitioning.FillTaskGroups h
            (TaskAndExecutionList env h topLevelTasks))) ->
  (forall tr' name port user commands,
     sendSucceeds env tr' name port user commands = true) ->
  (forall tr' taskList, executeSucceeds env tr' taskList = true) ->
  exists h' batches,
    AdaptiveExecutorRepartitioning.ExecuteDependedTasks env h topLevelTasks
      tr0
    = (Ok h',
       ((tr0 ++ [EvTrackerCleanupJobDirectories])
        ++ sendEvents (CitusExtensionOwnerName env)
             [statements (WORKER_CREATE_SCHEMA_QUERY env)
                (RepartitionLogic.CreateJobIds h
                   (snd (AdaptiveExecutorRepartitioning.FillTaskGroups h
                           (TaskAndExecutionList env h topLevelTasks))))]
             (ActiveReadableNodeList env
                (tr0 ++ [EvTrackerCleanupJobDirectories])))
       ++ (EvExecuteTaskList <$> batches))
    /\ (forall p, withoutQueryString (h' p) = withoutQueryString (h p))
    /\ (forall p,
          p ∉ fst (AdaptiveExecutorRepartitioning.FillTaskGroups h
                     (TaskAndExecutionList env h topLevelTasks)) ->
          h' p = h p)
    /\ (forall task producer others placement replicas,
          task ∈ fst (AdaptiveExecutorRepartitioning.FillTaskGroups h
                        (TaskAndExecutionList env h topLevelTasks)) ->
          dependedTaskList (h task) = producer :: others ->
          taskPlacementList (h producer) = placement :: replicas ->
          queryString (h' task) = fetchCommand env h task producer placement).
Proof.
  intros Hready Htyped Hsend Hexec.
  unfold AdaptiveExecutorRepartitioning.ExecuteDependedTasks.
  destruct (AdaptiveExecutorRepartitioning.FillTaskGroups h
              (TaskAndExecutionList env h topLevelTasks))
    as [fetch merge]. cbn [fst snd] in *.
  destruct (PutMapOutputFetchQueryStrings_spec env h fetch Hready Htyped h)
    as (h' & Hput & Hsame & Hrest & Hcmd); [done|].
  set (tr1 := tr0 ++ [EvTrackerCleanupJobDirectories]).
  set (tr2 := tr1 ++ sendEvents (CitusExtensionOwnerName env)
                [statements (WORKER_CREATE_SCHEMA_QUERY env)
                   (RepartitionLogic.CreateJobIds h merge)]
                (ActiveReadableNodeList env tr1)).
  destruct (scheduler_succeeds env h' (TaskAndExecutionList env h topLevelTasks)
              topLevelTasks tr2 Hexec) as (batches & Hsched).
  assert (Hkept : forall p, p ∉ fetch -> h' p = h p).
  { intros p Hp.
    apply withoutQueryString_inj; [apply Hsame | by apply Hrest]. }
  exists h', batches. split_and!; [|done|done|done].
  unfold mbind at 1. unfold M_bind at 1.
  unfold TrackerCleanupJobDirectories. fold tr1.
  unfold mbind at 1. unfold M_bind at 1. unfold lift. rewrite Hput.
  unfold mbind at 1. unfold M_bind at 1.
  rewrite CreateTemporarySchemas_agree.
  unfold mbind at 1. unfold M_bind at 1.
  unfold RepartitionLogic.CreateTemporarySchemas,
    RepartitionLogic.CreateSchemasOnAllWorkers,
    RepartitionLogic.SendCommandToAllWorkers,
    RepartitionLogic.GenerateCreateSchemasCommand.
  unfold mbind at 1. unfold M_bind at 1.
  rewrite SendCommandToAllWorkers_from_ok by done.
  rewrite GenerateCommand_statements.
  assert (Hjobs : RepartitionLogic.CreateJobIds h' merge
                  = RepartitionLogic.CreateJobIds h merge).
  { unfold RepartitionLogic.CreateJobIds.
    rewrite <- !CreateJobIds_from_agree. by apply CreateJobIds_from_same. }
  rewrite Hjobs. fold tr2.
  unfold mret, M_ret. cbv beta iota.
  unfold mbind, M_bind. by rewrite Hsched.
Qed.

(** The theorem of X24 on the repartition job. *)
Lemma X24_adaptive_run_succeeds_when_its_collaborators_do_witness :
  exists h' batches,
    AdaptiveExecutorRepartitioning.ExecuteDependedTasks
      (exampleEnv true [0; 1; 2; 3] false) repartitionHeap [0] []
    = (Ok h',
       (([] ++ [EvTrackerCleanupJobDirectories])
        ++ [EvSendCommandList "w1" 5432 "owner" ["create(7);"];
            EvSendCommandList "w2" 5433 "owner" ["create(7);"]])
       ++ (EvExecuteTaskList <$> batches))
    /\ (forall p,
          withoutQueryString (h' p) = withoutQueryString (repartitionHeap p))
    /\ (forall p, p ∉ [2] -> h' p = repartitionHeap p)
    /\ (forall task producer others placement replicas,
          task ∈ [2] ->
          dependedTaskList (repartitionHeap task) = producer :: others ->
          taskPlacementList (repartitionHeap producer)
          = placement :: replicas ->
          queryString (h' task)
          = fetchCommand (exampleEnv true [0; 1; 2; 3] false) repartitionHeap
              task producer placement).
Proof.
  apply (X24_adaptive_run_succeeds_when_its_collaborators_do
           (exampleEnv true [0; 1; 2; 3] false) repartitionHeap [0] []).
  - repeat constructor.
    exists 3, [], (mkShardPlacement "w1" 5432), [mkShardPlacement "w2" 5433].
    split; reflexivity.
  - repeat constructor. intros producer others [= <- <-]. reflexivity.
  - reflexivity.
  - reflexivity.
Defined.

(** ** Runs with nothing to dispatch *)

(** X25.  When every task of [allTasks] has the identity of a top-level
    task, as when the top-level tasks have no dependencies and the list is
    the top-level list itself, the scheduler makes no call and returns
    normally. *)
Theorem X25_scheduler_dispatches_nothing_for_top_level_tasks
    (env : Collaborators) (h : Heap) (allTasks topLevelTasks : list TaskPtr)
    (tr0 : Trace) :
  (forall t, t ∈ allTasks ->
             AdaptiveExecutorRepartitioning.FillTaskKey h t
             ∈ keysOf h topLevelTasks) ->
  AdaptiveExecutorRepartitioning.ExecuteTasksInDependencyOrder env h allTasks
    topLevelTasks tr0
  = (Ok tt, tr0).
Proof.
  intros Htop. rewrite ExecuteTasksInDependencyOrder_unfold.
  destruct (table_run_spec env h allTasks topLevelTasks tr0)
    as (batches & Htr & Hne & _ & Hfresh & Hres).
  assert (Hnone : batches = []).
  { destruct batches as [|[|t batch] batches]; [done | |].
    - by apply Forall_cons in Hne as [? _].
    - exfalso. destruct (Hfresh t) as [Hin Hkey]; [by left|].
      by apply Hkey, Htop. }
  subst batches. rewrite Htr. cbn [fmap list_fmap]. rewrite app_nil_r.
  destruct (fst (AdaptiveExecutorRepartitioning.ExecuteTasksInDependencyOrder_table
                   env h allTasks topLevelTasks tr0)) as [table|e];
    [reflexivity|].
  by destruct Hres as [_ ?].
Qed.

(** The theorem of X25 on the top-level task of scenario A alone. *)
Lemma X25_scheduler_dispatches_nothing_for_top_level_tasks_witness :
  AdaptiveExecutorRepartitioning.ExecuteTasksInDependencyOrder
    (exampleEnv false [0] false) scenarioA [0] [0] []
  = (Ok tt, []).
Proof.
  apply X25_scheduler_dispatches_nothing_for_top_level_tasks.
  intros t Ht. by apply keysOf_elem.
Defined.

Lemma scheduler_on_no_task (env : Collaborators) (h : Heap)
    (topLevelTasks : list TaskPtr) (tr : Trace) :
  AdaptiveExecutorRepartitioning.ExecuteTasksInDependencyOrder env h []
    topLevelTasks tr
  = (Ok tt, tr).
Proof. reflexivity. Qed.

(** X26.  When the expanded task list is empty, no modification was made
    before and no worker rejects a command, a run of [ExecuteDependedTasks]
    of repartition_logic.c makes no dispatch, whatever the remote executor
    would answer, and still sends an empty create command and then an empty
    delete command to every node. *)
Theorem X26_empty_task_list_still_broadcasts
    (env : Collaborators) (h : Heap) (topLevelTasks : list TaskPtr)
    (tr0 : Trace) :
  TaskAndExecutionList env h topLevelTasks = [] ->
  modificationsDone env = false ->
  (forall tr' name port user commands,
     sendSucceeds env tr' name port user commands = true) ->
  RepartitionLogic.ExecuteDependedTasks env h topLevelTasks tr0
  = (Ok tt,
     (tr0 ++ sendEvents (CitusExtensionOwnerName env) [EmptyString]
               (ActiveReadableNodeList env tr0))
     ++ sendEvents (CitusExtensionOwnerName env) [EmptyString]
          (ActiveReadableNodeList env
             (tr0 ++ sendEvents (CitusExtensionOwnerName env) [EmptyString]
                       (ActiveReadableNodeList env tr0)))).
Proof.
  intros Hempty Hmod Hsend.
  unfold RepartitionLogic.ExecuteDependedTasks,
    EnsureNoModificationsHaveBeenDone.
  rewrite Hmod, Hempty.
  unfold RepartitionLogic.CreateTemporarySchemas,
    RepartitionLogic.CreateSchemasOnAllWorkers,
    RepartitionLogic.RemoveTempJobDirs,
    RepartitionLogic.SendCommandToAllWorkers.
  unfold mbind, M_bind, mret, M_ret.
  rewrite SendCommandToAllWorkers_from_ok by done.
  rewrite scheduler_on_no_task.
  by rewrite SendCommandToAllWorkers_from_ok.
Qed.

(** The theorem of X26 with a remote executor that fails every
    dispatch. *)
Lemma X26_empty_task_list_still_broadcasts_witness :
  RepartitionLogic.ExecuteDependedTasks
    (exampleEnvWith false [] false (fun _ _ => false)) scenarioA [] []
  = (Ok tt,
     ([] ++ [EvSendCommandList "w1" 5432 "owner" [EmptyString];
             EvSendCommandList "w2" 5433 "owner" [EmptyString]])
     ++ [EvSendCommandList "w1" 5432 "owner" [EmptyString];
         EvSendCommandList "w2" 5433 "owner" [EmptyString]]).
Proof.
  apply (X26_empty_task_list_still_broadcasts
           (exampleEnvWith false [] false (fun _ _ => false)) scenarioA [] []).
  - reflexivity.
  - reflexivity.
  - reflexivity.
Defined.

(** ** The tasks that a run leaves out *)

(** X27.  In a run of the scheduler that returns normally, a task of
    [allTasks] whose identity is neither that of a top-level task nor that
    of a dispatched task has a dependency of which the same holds: a task
    is left out only behind a dependency that is left out, or that is not
    in the list at all. *)
Theorem X27_a_task_is_left_out_behind_a_dependency_left_out
    (env : Collaborators) (h : Heap) (allTasks topLevelTasks : list TaskPtr)
    (tr0 : Trace) :
  fst (AdaptiveExecutorRepartitioning.ExecuteTasksInDependencyOrder env h
         allTasks topLevelTasks tr0) = Ok tt ->
  exists batches,
    snd (AdaptiveExecutorRepartitioning.ExecuteTasksInDependencyOrder env h
           allTasks topLevelTasks tr0)
      = tr0 ++ (EvExecuteTaskList <$> batches)
    /\ Forall (fun t =>
         AdaptiveExecutorRepartitioning.FillTaskKey h t
         ∈ keysOf h (concat batches) ∪ keysOf h topLevelTasks
         \/ Exists (fun d =>
              AdaptiveExecutorRepartitioning.FillTaskKey h d
              ∉ keysOf h (concat batches) ∪ keysOf h topLevelTasks)
              (dependedTaskList (h t)))
         allTasks.
Proof.
  rewrite ExecuteTasksInDependencyOrder_unfold. cbn [fst snd]. intros Hok.
  destruct (table_run_spec env h allTasks topLevelTasks tr0)
    as (batches & Htr & _ & _ & _ & Hres).
  exists batches. split; [exact Htr|].
  destruct (fst (AdaptiveExecutorRepartitioning.ExecuteTasksInDependencyOrder_table
                   env h allTasks topLevelTasks tr0)) as [table|e]; [|done].
  destruct Hres as [-> Hfix].
  apply Forall_forall. intros t Ht.
  set (table := keysOf h (concat batches) ∪ keysOf h topLevelTasks) in *.
  destruct (decide (Forall (fun d =>
              AdaptiveExecutorRepartitioning.FillTaskKey h d ∈ table)
              (dependedTaskList (h t)))) as [Hall|Hnot].
  - left. apply Hfix; [done|]. intros d Hd.
    by eapply (proj1 (Forall_forall _ _)) in Hall.
  - right. apply not_Forall_Exists in Hnot; [done | apply _].
Qed.

(** The theorem of X27 on the two tasks that wait for each other. *)
Lemma X27_a_task_is_left_out_behind_a_dependency_left_out_witness :
  exists batches,
    snd (AdaptiveExecutorRepartitioning.ExecuteTasksInDependencyOrder
           (exampleEnv false [0; 1; 2] false) cyclicHeap [0; 1; 2] [0] [])
      = [] ++ (EvExecuteTaskList <$> batches)
    /\ Forall (fun t =>
         AdaptiveExecutorRepartitioning.FillTaskKey cyclicHeap t
         ∈ keysOf cyclicHeap (concat batches) ∪ keysOf cyclicHeap [0]
         \/ Exists (fun d =>
              AdaptiveExecutorRepartitioning.FillTaskKey cyclicHeap d
              ∉ keysOf cyclicHeap (concat batches) ∪ keysOf cyclicHeap [0])
              (dependedTaskList (cyclicHeap t)))
         [0; 1; 2].
Proof.
  apply X27_a_task_is_left_out_behind_a_dependency_left_out.
  vm_compute. reflexivity.
Defined.
